(** * Image Alignment: the coarse-to-fine engine of [align_base.h]

    A shallow embedding of [imagealign::AlignBase<D, W>] (file
    [inc/imagealign/align_base.h]) and the properties of its control logic:
    level-count sanitising in [prepare], level clamping in [setLevel], the
    boundary test [isInImage] and the accept/reject loop of [align].

    How the C++ is read:

    - [int] is modelled by [Z].  The arithmetic of [prepare], [setLevel] and
      [align] on [int] is [min], [max], a negation, a decrement, an increment
      bounded by the loop guard and one truncating division ([Z.quot]); none of
      it leaves the range of [int] on an engine [prepare] has set up, and no
      wrap-around is written out there.  The subtractions [imgSize.width - r]
      and [imgSize.height - r] of [isInImage] can leave it: C++ leaves the
      overflow undefined, and the model writes out the 32-bit two's-complement
      wrap-around the machine performs ([wrapInt]).
    - [W::Traits::ScalarType] is a template parameter: the class [ScalarType]
      lists the operations the header performs on it.  The theorems hold for
      every instance; [Demo.binary64] instantiates it with IEEE-754 doubles
      (Rocq's primitive floats), which is what [double] is.
    - [W] (the warp) and [D] (the derived algorithm, reached through
      [static_cast<D*>(this)]) are template parameters as well: classes [Warp]
      and [Algorithm].  An object of the derived class is the base-class fields
      plus the fields of [D]; the record [AlignBase] carries the latter in
      [derived].  The three hooks receive the whole object and return the new
      contents of [derived].  The fields of the base are private to it; a hook
      is taken not to call the protected [setLevel] nor to write through
      [templateImagePyramid()] and [targetImagePyramid()] while [prepare] or
      [align] runs, and [alignImpl] not to change the warp it is given.
    - [ImagePyramid], [cv::Mat] and [cv::Size] come from headers that are not
      part of this file; what [align_base.h] needs of them is in
      [ImageOps], [PyramidOps] and the list model of a pyramid.
    - [CV_Assert] throws: [prepare] returns an [option].
    - [align] on an engine with [numLevels() == 0] divides by zero on line
      168; the quotient of the model is 0 there and its loops do nothing.
      [prepare] leaves at least one level. *)

From Stdlib Require Import ZArith List Finite Bool Lia Floats.
Import ListNotations.
Open Scope Z_scope.

(** ** Scalars *)

(** The operations of [align_base.h] on [ScalarType]: [/] and [-] (lines 181,
    182, 267), [>=] (185, 186), the conversion [ScalarType(int)] (181, 185),
    the constant [ScalarType(0.5)], [std::numeric_limits<ScalarType>::max()]
    (238) and [(int)std::floor(x)] (267).  The division is total, as that of
    a floating-point type is: a zero divisor gives an infinity or a NaN. *)
Class ScalarType (S : Type) := {
  sdiv : S -> S -> S;
  ssub : S -> S -> S;
  sge : S -> S -> bool;
  ofInt : Z -> S;
  shalf : S;
  smax : S;
  floorInt : S -> Z
}.

(** ** The type [int] *)

Definition INT_MIN : Z := - 2 ^ 31.

Definition INT_MAX : Z := 2 ^ 31 - 1.

(** [z] is a value of [int]. *)
Definition fitsInt (z : Z) : Prop := INT_MIN <= z <= INT_MAX.

(** What a 32-bit two's-complement [int] holds when the exact result of an
    operation is [z]. *)
Definition wrapInt (z : Z) : Z := (z + 2 ^ 31) mod 2 ^ 32 - 2 ^ 31.

(** ** Data *)

(** [cv::Size]. *)
Record Size := { width : Z; height : Z }.

(** [W::Traits::PointType], read through [p(0)] and [p(1)]. *)
Record PointType (S : Type) := { coord0 : S; coord1 : S }.

Arguments Build_PointType {S}.
Arguments coord0 {S}.
Arguments coord1 {S}.

(** [SingleStepResult<W>]. *)
Record SingleStepResult (P S : Type) := {
  delta : P;
  sumErrors : S;
  numConstraints : Z
}.

Arguments Build_SingleStepResult {P S}.
Arguments delta {P S}.
Arguments sumErrors {P S}.
Arguments numConstraints {P S}.

(** [cv::InputArray] / [cv::Mat], as far as [prepare] looks at them. *)
Class ImageOps (Img : Type) := {
  channels : Img -> Z;
  size : Img -> Size
}.

(** An [ImagePyramid] is its sequence of levels, index 0 the finest. *)
Definition ImagePyramid (Img : Type) := list Img.

(** [ImagePyramid::numLevels()]. *)
Definition pyrNumLevels {Img} (p : ImagePyramid Img) : Z := Z.of_nat (length p).

(** [ImagePyramid::operator[]]; [None] where the index is out of range. *)
Definition pyrAt {Img} (p : ImagePyramid Img) (i : Z) : option Img :=
  if i <? 0 then None else nth_error p (Z.to_nat i).

(** Modelled from the spec: [ImagePyramid::slice(startLevel, count)] is
    declared in [image_pyramid.h], which is not in this file; the spec
    describes [slice(0, levels)] as the prefix of levels [0..levels-1]. *)
Definition slice {Img} (p : ImagePyramid Img) (startLevel count : Z) : ImagePyramid Img :=
  firstn (Z.to_nat count) (skipn (Z.to_nat startLevel) p).

(** The two members of [ImagePyramid] whose results this header only passes
    on: [create(image, levels)] and the static [maxLevelsForImageSize]. *)
Class PyramidOps (Img : Type) := {
  create : Img -> Z -> ImagePyramid Img;
  maxLevelsForImageSize : Size -> Z
}.

(** The warp: [W::scaled(int)]. *)
Class Warp (W : Type) := {
  scaled : W -> Z -> W
}.

(** [(ScalarType)cv::norm(s.delta)] on the warp's parameter type. *)
Class CvNorm (P S : Type) := {
  norm : P -> S
}.

(** The fields of [AlignBase<D, W>], and in [derived] those of the derived
    class [D]. *)
Record AlignBase (D S Img : Type) := {
  _templatePyramid : ImagePyramid Img;
  _targetPyramid : ImagePyramid Img;
  _levels : Z;
  _level : Z;
  _error : S;
  derived : D
}.

Arguments Build_AlignBase {D S Img}.
Arguments _templatePyramid {D S Img}.
Arguments _targetPyramid {D S Img}.
Arguments _levels {D S Img}.
Arguments _level {D S Img}.
Arguments _error {D S Img}.
Arguments derived {D S Img}.

(** The hooks of the derived class. *)
Class Algorithm (D W P S Img : Type) := {
  prepareImpl : AlignBase D S Img -> W -> D;
  alignImpl : AlignBase D S Img -> W -> SingleStepResult P S * D;
  applyStep : AlignBase D S Img -> W -> SingleStepResult P S -> W * D
}.

Section Engine.

Context {S P W Img D : Type}.
Context {scalarType : ScalarType S} {imageOps : ImageOps Img}
        {pyramidOps : PyramidOps Img} {warp : Warp W} {cvNorm : CvNorm P S}
        {algorithm : Algorithm D W P S Img}.

Local Notation "'Base'" := (AlignBase D S Img).
Local Notation "'Step'" := (SingleStepResult P S).

(** *** Accessors *)

Definition numLevels (this : Base) : Z := _levels this.

Definition lastError (this : Base) : S := _error this.

Definition level (this : Base) : Z := _level this.

Definition templateImage (this : Base) : option Img :=
  pyrAt (_templatePyramid this) (_level this).

Definition targetImage (this : Base) : option Img :=
  pyrAt (_targetPyramid this) (_level this).

Definition templateImagePyramid (this : Base) : ImagePyramid Img :=
  _templatePyramid this.

Definition targetImagePyramid (this : Base) : ImagePyramid Img :=
  _targetPyramid this.

(** A hook has run: the fields of [D] are replaced. *)
Definition withDerived (this : Base) (d : D) : Base :=
  {| _templatePyramid := _templatePyramid this;
     _targetPyramid := _targetPyramid this;
     _levels := _levels this;
     _level := _level this;
     _error := _error this;
     derived := d |}.

(** [_error = e]. *)
Definition withError (this : Base) (e : S) : Base :=
  {| _templatePyramid := _templatePyramid this;
     _targetPyramid := _targetPyramid this;
     _levels := _levels this;
     _level := _level this;
     _error := e;
     derived := derived this |}.

(** Two states of the engine with the same pyramids and level count. *)
Definition sameConfiguration (a b : Base) : Prop :=
  _templatePyramid a = _templatePyramid b
  /\ _targetPyramid a = _targetPyramid b
  /\ _levels a = _levels b.

(** *** [setLevel] (lines 232-241) *)

Definition setLevel (this : Base) (level : Z) : Base :=
  let level := Z.max 0 (Z.min level (numLevels this - 1)) in
  {| _templatePyramid := _templatePyramid this;
     _targetPyramid := _targetPyramid this;
     _levels := _levels this;
     _level := level;
     _error := smax;
     derived := derived this |}.

(** *** [isInImage] (lines 266-274) *)

Definition isInImage (p : PointType S) (imgSize : Size) (r : Z) : bool :=
  let x := floorInt (ssub (coord0 p) shalf) in
  let y := floorInt (ssub (coord1 p) shalf) in
  (x >=? r) && (y >=? r)
  && (x <? wrapInt (width imgSize - r)) && (y <? wrapInt (height imgSize - r)).

(** The arguments of [isInImage] and the two coordinates it computes are
    values of [int]. *)
Definition intInputs (p : PointType S) (imgSize : Size) (r : Z) : Prop :=
  fitsInt r /\ fitsInt (width imgSize) /\ fitsInt (height imgSize)
  /\ fitsInt (floorInt (ssub (coord0 p) shalf))
  /\ fitsInt (floorInt (ssub (coord1 p) shalf)).

(** The subtractions of lines 272 and 273 stay within [int]. *)
Definition noOverflow (imgSize : Size) (r : Z) : Prop :=
  fitsInt (width imgSize - r) /\ fitsInt (height imgSize - r).

(** *** [prepare] (lines 83-102 and 119-144) *)

(** The level count both overloads compute from [pyramidLevels] and
    [maxLevels] (lines 93 and 131). *)
Definition sanitizeLevels (pyramidLevels maxLevels : Z) : Z :=
  Z.max 1 (Z.min pyramidLevels maxLevels).

(** The assignments to [_levels] and to the two pyramids. *)
Definition withPyramids (this : Base) (levels : Z) (tp gp : ImagePyramid Img) : Base :=
  {| _templatePyramid := tp;
     _targetPyramid := gp;
     _levels := levels;
     _level := _level this;
     _error := _error this;
     derived := derived this |}.

(** First overload: template image and target image.  [None] is a failed
    [CV_Assert]. *)
Definition prepare (this : Base) (tmpl target : Img) (w : W) (pyramidLevels : Z)
  : option Base :=
  if negb (channels tmpl =? 1) then None
  else if negb (channels target =? 1) then None
  else
    let maxLevels := Z.min (maxLevelsForImageSize (size tmpl))
                           (maxLevelsForImageSize (size target)) in
    let levels := sanitizeLevels pyramidLevels maxLevels in
    let this1 := withPyramids this levels (create tmpl levels) (create target levels) in
    let this2 := setLevel this1 0 in
    Some (withDerived this2 (prepareImpl this2 w)).

(** Second overload: template image and a target pyramid built before. *)
Definition prepareWithPyramid (this : Base) (tmpl : Img) (target : ImagePyramid Img)
    (w : W) (pyramidLevels : Z) : option Base :=
  if negb (pyrNumLevels target >? 0) then None
  else if negb (channels tmpl =? 1) then None
  else
    match pyrAt target 0 with
    | None => None
    | Some t0 =>
      if negb (channels t0 =? 1) then None
      else
        let maxLevels := Z.min (maxLevelsForImageSize (size tmpl))
                               (pyrNumLevels target) in
        let levels := sanitizeLevels pyramidLevels maxLevels in
        let targetPyramid :=
          if pyrNumLevels target >? levels then slice target 0 levels else target in
        let this1 := withPyramids this levels (create tmpl levels) targetPyramid in
        let this2 := setLevel this1 0 in
        Some (withDerived this2 (prepareImpl this2 w))
    end.

(** *** [align] (lines 166-205) *)

(** What [align] works on: [*this], the local [ws], and the container behind
    [steps] ([None] for the null pointer). *)
Record AlignState := {
  st_this : Base;
  st_ws : W;
  st_steps : option (list W)
}.

(** How one pass through the body of the inner loop ends: at the bottom of the
    [if] branch, or at the [break] of the [else] branch. *)
Inductive Outcome :=
| Accepted (st : AlignState)
| Rejected (st : AlignState).

(** The body of the inner loop, lines 179-196. *)
Definition alignIteration (lev iter : Z) (eps : S) (st : AlignState) : Outcome :=
  let (s, d1) := alignImpl (st_this st) (st_ws st) in
  let this1 := withDerived (st_this st) d1 in
  let newError := sdiv (sumErrors s) (ofInt (numConstraints s)) in
  let errorChange := ssub (lastError this1) newError in
  if (numConstraints s >? 0)
     && sge errorChange (ofInt 0)
     && ((iter =? 0) || sge (norm (delta s)) eps)
  then
    let (ws', d2) := applyStep this1 (st_ws st) s in
    let this2 := withError (withDerived this1 d2) newError in
    Accepted {| st_this := this2;
                st_ws := ws';
                st_steps := option_map (fun v => v ++ [scaled ws' lev]) (st_steps st) |}
  else
    Rejected {| st_this := this1; st_ws := st_ws st; st_steps := st_steps st |}.

(** The inner loop, [for (int iter = 0; iter < iterationsPerLevel; ++iter)],
    from a given value of [iter]. *)
Fixpoint iterations (fuel : nat) (lev iter iterationsPerLevel : Z) (eps : S)
    (st : AlignState) : AlignState :=
  match fuel with
  | O => st
  | Datatypes.S fuel' =>
    if iter <? iterationsPerLevel then
      match alignIteration lev iter eps st with
      | Accepted st' => iterations fuel' lev (iter + 1) iterationsPerLevel eps st'
      | Rejected st' => st'
      end
    else st
  end.

(** Lines 174-175: [setLevel(lev); ws = ws.scaled(1)]. *)
Definition enterLevel (lev : Z) (st : AlignState) : AlignState :=
  {| st_this := setLevel (st_this st) lev;
     st_ws := scaled (st_ws st) 1;
     st_steps := st_steps st |}.

(** One pass through the body of the outer loop, lines 174-197. *)
Definition alignLevel (lev iterationsPerLevel : Z) (eps : S) (st : AlignState)
  : AlignState :=
  iterations (Z.to_nat iterationsPerLevel) lev 0 iterationsPerLevel eps
             (enterLevel lev st).

(** The outer loop, [for (int lev = numLevels() - 1; lev >= 0; --lev)], from a
    given value of [lev]. *)
Fixpoint levelsFrom (fuel : nat) (lev iterationsPerLevel : Z) (eps : S)
    (st : AlignState) : AlignState :=
  match fuel with
  | O => st
  | Datatypes.S fuel' =>
    if lev >=? 0 then
      levelsFrom fuel' (lev - 1) iterationsPerLevel eps
                 (alignLevel lev iterationsPerLevel eps st)
    else st
  end.

(** [align(w, maxIterations, eps, steps)].  In the state returned, [st_ws] is
    what line 201 writes to [w]. *)
Definition align (this : Base) (w : W) (maxIterations : Z) (eps : S)
    (steps : option (list W)) : AlignState :=
  let iterationsPerLevel := Z.quot maxIterations (numLevels this) in
  let ws := scaled w (- numLevels this) in
  levelsFrom (Z.to_nat (numLevels this)) (numLevels this - 1) iterationsPerLevel eps
             {| st_this := this; st_ws := ws; st_steps := steps |}.

(** *** The record of a run

    The claims speak of "every iteration" and "every level" of a call: the
    functions below list them, in order, by running the same bodies. *)

Definition outcomeState (o : Outcome) : AlignState :=
  match o with Accepted st => st | Rejected st => st end.

Definition isAccepted (o : Outcome) : bool :=
  match o with Accepted _ => true | Rejected _ => false end.

(** The step line 179 obtains in state [st], and [*this] once [alignImpl] has
    returned. *)
Definition stepOf (st : AlignState) : Step :=
  fst (alignImpl (st_this st) (st_ws st)).

Definition afterAlignImpl (st : AlignState) : Base :=
  withDerived (st_this st) (snd (alignImpl (st_this st) (st_ws st))).

(** One call of [alignImpl]: where, on what, and how the body ended. *)
Record Attempt := {
  at_level : Z;
  at_iter : Z;
  at_before : AlignState;
  at_outcome : Outcome
}.

(** The step [alignImpl] returned in this attempt. *)
Definition at_step (a : Attempt) : Step := stepOf (at_before a).

Definition at_after (a : Attempt) : AlignState := outcomeState (at_outcome a).

Fixpoint iterationsTrace (fuel : nat) (lev iter iterationsPerLevel : Z) (eps : S)
    (st : AlignState) : list Attempt :=
  match fuel with
  | O => []
  | Datatypes.S fuel' =>
    if iter <? iterationsPerLevel then
      let o := alignIteration lev iter eps st in
      {| at_level := lev; at_iter := iter; at_before := st; at_outcome := o |}
      :: match o with
         | Accepted st' => iterationsTrace fuel' lev (iter + 1) iterationsPerLevel eps st'
         | Rejected _ => []
         end
    else []
  end.

(** One pass through the outer loop: the state it starts from, the state after
    lines 174-175, the attempts, and the state it leaves. *)
Record LevelVisit := {
  lv_level : Z;
  lv_before : AlignState;
  lv_entry : AlignState;
  lv_attempts : list Attempt;
  lv_exit : AlignState
}.

Definition visitLevel (lev iterationsPerLevel : Z) (eps : S) (st : AlignState)
  : LevelVisit :=
  {| lv_level := lev;
     lv_before := st;
     lv_entry := enterLevel lev st;
     lv_attempts := iterationsTrace (Z.to_nat iterationsPerLevel) lev 0
                                    iterationsPerLevel eps (enterLevel lev st);
     lv_exit := alignLevel lev iterationsPerLevel eps st |}.

Fixpoint levelsTrace (fuel : nat) (lev iterationsPerLevel : Z) (eps : S)
    (st : AlignState) : list LevelVisit :=
  match fuel with
  | O => []
  | Datatypes.S fuel' =>
    if lev >=? 0 then
      visitLevel lev iterationsPerLevel eps st
      :: levelsTrace fuel' (lev - 1) iterationsPerLevel eps
                     (alignLevel lev iterationsPerLevel eps st)
    else []
  end.

Definition alignTrace (this : Base) (w : W) (maxIterations : Z) (eps : S)
    (steps : option (list W)) : list LevelVisit :=
  levelsTrace (Z.to_nat (numLevels this)) (numLevels this - 1)
              (Z.quot maxIterations (numLevels this)) eps
              {| st_this := this;
                 st_ws := scaled w (- numLevels this);
                 st_steps := steps |}.

(** Every attempt of a run, in the order made. *)
Definition allAttempts (t : list LevelVisit) : list Attempt :=
  flat_map lv_attempts t.

(** What line 191 pushes for an attempt: [ws.scaled(lev)] when the step was
    accepted, nothing otherwise. *)
Definition pushedBy (a : Attempt) : list W :=
  match at_outcome a with
  | Accepted st' => [scaled (st_ws st') (at_level a)]
  | Rejected _ => []
  end.

(** The levels the outer loop goes through: [n-1, n-2, ..., 0]. *)
Definition levelsVisited (n : Z) : list Z :=
  map (fun i => n - 1 - Z.of_nat i) (seq 0 (Z.to_nat n)).

(** Each attempt starts from the state the one before it left. *)
Fixpoint attemptsChained (st : AlignState) (l : list Attempt) : Prop :=
  match l with
  | [] => True
  | a :: l' => at_before a = st /\ attemptsChained (at_after a) l'
  end.

(** Each visit starts from the state the one before it left. *)
Fixpoint chained (st : AlignState) (t : list LevelVisit) : Prop :=
  match t with
  | [] => True
  | v :: t' => lv_before v = st /\ chained (lv_exit v) t'
  end.

(** The state after the last visit ([st] when there is none). *)
Definition lastExit (st : AlignState) (t : list LevelVisit) : AlignState :=
  last (map lv_exit t) st.

(** Does the attempt divide by zero on line 181? *)
Definition dividesByZero (a : Attempt) : bool := numConstraints (at_step a) =? 0.

(** *** The same loop with the division of line 181 guarded

    [newError] is computed before the [if] of line 184 looks at
    [numConstraints].  Here the division reports a zero divisor instead of
    returning a scalar, and the loops pass the report on. *)

Definition checkedDiv (a : S) (n : Z) : option S :=
  if n =? 0 then None else Some (sdiv a (ofInt n)).

Definition alignIterationChecked (lev iter : Z) (eps : S) (st : AlignState)
  : option Outcome :=
  let (s, d1) := alignImpl (st_this st) (st_ws st) in
  let this1 := withDerived (st_this st) d1 in
  match checkedDiv (sumErrors s) (numConstraints s) with
  | None => None
  | Some newError =>
    let errorChange := ssub (lastError this1) newError in
    if (numConstraints s >? 0)
       && sge errorChange (ofInt 0)
       && ((iter =? 0) || sge (norm (delta s)) eps)
    then
      let (ws', d2) := applyStep this1 (st_ws st) s in
      let this2 := withError (withDerived this1 d2) newError in
      Some (Accepted {| st_this := this2;
                        st_ws := ws';
                        st_steps := option_map (fun v => v ++ [scaled ws' lev])
                                               (st_steps st) |})
    else
      Some (Rejected {| st_this := this1; st_ws := st_ws st; st_steps := st_steps st |})
  end.

Fixpoint iterationsChecked (fuel : nat) (lev iter iterationsPerLevel : Z) (eps : S)
    (st : AlignState) : option AlignState :=
  match fuel with
  | O => Some st
  | Datatypes.S fuel' =>
    if iter <? iterationsPerLevel then
      match alignIterationChecked lev iter eps st with
      | None => None
      | Some (Accepted st') =>
        iterationsChecked fuel' lev (iter + 1) iterationsPerLevel eps st'
      | Some (Rejected st') => Some st'
      end
    else Some st
  end.

Fixpoint levelsFromChecked (fuel : nat) (lev iterationsPerLevel : Z) (eps : S)
    (st : AlignState) : option AlignState :=
  match fuel with
  | O => Some st
  | Datatypes.S fuel' =>
    if lev >=? 0 then
      match iterationsChecked (Z.to_nat iterationsPerLevel) lev 0 iterationsPerLevel
                              eps (enterLevel lev st) with
      | None => None
      | Some st' => levelsFromChecked fuel' (lev - 1) iterationsPerLevel eps st'
      end
    else Some st
  end.

Definition alignChecked (this : Base) (w : W) (maxIterations : Z) (eps : S)
    (steps : option (list W)) : option AlignState :=
  levelsFromChecked (Z.to_nat (numLevels this)) (numLevels this - 1)
                    (Z.quot maxIterations (numLevels this)) eps
                    {| st_this := this;
                       st_ws := scaled w (- numLevels this);
                       st_steps := steps |}.

(** *** Further notions the facts below speak of *)

(** The last accepted attempt of a list, if there is one. *)
Fixpoint lastAccepted (l : list Attempt) : option Attempt :=
  match l with
  | [] => None
  | a :: l' =>
    match lastAccepted l' with
    | Some b => Some b
    | None => if isAccepted (at_outcome a) then Some a else None
    end
  end.

(** [newError] of line 181 for the step of an attempt. *)
Definition at_newError (a : Attempt) : S :=
  sdiv (sumErrors (at_step a)) (ofInt (numConstraints (at_step a))).

(** The accepted attempts of a list, in order. *)
Definition acceptedAttempts (l : list Attempt) : list Attempt :=
  filter (fun a => isAccepted (at_outcome a)) l.

(** Two states of [align] that differ at most in the steps container. *)
Definition sameButSteps (st st' : AlignState) : Prop :=
  st_this st = st_this st' /\ st_ws st = st_ws st'.

(** The active level indexes the pyramids of an engine of [numLevels()]
    levels. *)
Definition levelInRange (this : Base) : Prop :=
  0 <= level this < numLevels this.

End Engine.

(** ** A concrete instance

    The engine run on actual values: [double] scalars, a translation warp, a
    scripted algorithm and a pyramid of image headers.  The examples and the
    counterexamples below are evaluated on it. *)

Module Demo.

(** [(int)std::floor(x)] on a double: the floor of [x] when that is a value
    of [int].  For a NaN, an infinity or a floor outside [int] C++ leaves the
    conversion undefined; the model gives [INT_MIN], which is what the
    conversion instruction of x86 returns. *)
Definition floorToInt (x : float) : Z :=
  match Prim2SF x with
  | S754_zero _ => 0
  | S754_finite s m e =>
    let v := if s then Z.neg m else Z.pos m in
    let f := if 0 <=? e then Z.shiftl v e else Z.shiftr v (- e) in
    if (INT_MIN <=? f) && (f <=? INT_MAX) then f else INT_MIN
  | _ => INT_MIN
  end.

(** [double(n)] for an [int] [n]: exact, since [|n| < 2^31]. *)
Definition intToDouble (n : Z) : float :=
  if n <? 0 then PrimFloat.opp (PrimFloat.of_uint63 (Uint63.of_Z (- n)))
  else PrimFloat.of_uint63 (Uint63.of_Z n).

#[export] Instance binary64 : ScalarType float := {|
  sdiv := PrimFloat.div;
  ssub := PrimFloat.sub;
  sge := fun a b => PrimFloat.leb b a;
  ofInt := intToDouble;
  shalf := 0.5%float;
  smax := 0x1.fffffffffffffp+1023%float;
  floorInt := floorToInt
|}.

(** An image header: channel count and size. *)
Record Image := { img_channels : Z; img_size : Size }.

#[export] Instance imageHeader : ImageOps Image := {|
  channels := img_channels;
  size := img_size
|}.

Definition halve (i : Image) : Image :=
  {| img_channels := img_channels i;
     img_size := {| width := width (img_size i) / 2;
                    height := height (img_size i) / 2 |} |}.

Fixpoint buildLevels (n : nat) (i : Image) : list Image :=
  match n with
  | O => []
  | Datatypes.S n' => i :: buildLevels n' (halve i)
  end.

(** Levels an image of the given size supports when no level may be smaller
    than [minSide] on a side. *)
Fixpoint supportedLevels (fuel : nat) (minSide w h : Z) : Z :=
  match fuel with
  | O => 0
  | Datatypes.S fuel' =>
    if (w <? minSide) || (h <? minSide) then 0
    else 1 + supportedLevels fuel' minSide (w / 2) (h / 2)
  end.

(** Modelled from the spec: [ImagePyramid::create] and
    [ImagePyramid::maxLevelsForImageSize] are defined in [image_pyramid.h],
    which is not in this file.  By the spec each level has half the width and
    height of the one before, and the level count an image supports is capped
    so that every level keeps a minimal usable size; the minimal side, which
    the spec leaves open, is 4 pixels here. *)
#[export] Instance halvingPyramid : PyramidOps Image := {|
  create := fun i n => buildLevels (Z.to_nat n) i;
  maxLevelsForImageSize := fun s => supportedLevels 32 4 (width s) (height s)
|}.

(** A translation, together with the pyramid level its parameters are
    expressed in. *)
Record Translation := { tx : float; ty : float; atLevel : Z }.

(** One level finer doubles the offsets, one level coarser halves them. *)
#[export] Instance translation : Warp Translation := {|
  scaled := fun w k =>
    {| tx := Z.ldexp (tx w) k; ty := Z.ldexp (ty w) k; atLevel := atLevel w - k |}
|}.

(** The Euclidean norm of a two-parameter update. *)
#[export] Instance norm2 : CvNorm (float * float) float := {|
  norm := fun d => PrimFloat.sqrt (fst d * fst d + snd d * snd d)%float
|}.

Definition Result := SingleStepResult (float * float) float.

(** [SingleStepResult()]: no constraints. *)
Definition noResult : Result :=
  {| delta := (0%float, 0%float); sumErrors := 0%float; numConstraints := 0 |}.

(** A scripted algorithm: its state is the list of results it has yet to
    return; a step is applied by adding the update to the offsets. *)
#[export] Instance scripted
  : Algorithm (list Result) Translation (float * float) float Image := {|
  prepareImpl := fun this _ => derived this;
  alignImpl := fun this _ =>
    match derived this with
    | [] => (noResult, [])
    | r :: rest => (r, rest)
    end;
  applyStep := fun this w s =>
    ({| tx := (tx w + fst (delta s))%float;
        ty := (ty w + snd (delta s))%float;
        atLevel := atLevel w |},
     derived this)
|}.

Definition Engine := AlignBase (list Result) float Image.

(** An engine before [prepare]. *)
Definition fresh (script : list Result) : Engine :=
  {| _templatePyramid := []; _targetPyramid := []; _levels := 0; _level := 0;
     _error := 0%float; derived := script |}.

Definition gray (w h : Z) : Image :=
  {| img_channels := 1; img_size := {| width := w; height := h |} |}.

Definition result (dx dy err : float) (n : Z) : Result :=
  {| delta := (dx, dy); sumErrors := err; numConstraints := n |}.

Definition origin : Translation :=
  {| tx := 0%float; ty := 0%float; atLevel := 0 |}.

(** The engine after [prepare] on a 64x64 template and a 640x480 target, for
    a level count between 1 and 5. *)
Definition prepared (levels : Z) (script : list Result) : Engine :=
  {| _templatePyramid := create (gray 64 64) levels;
     _targetPyramid := create (gray 640 480) levels;
     _levels := levels;
     _level := 0;
     _error := smax;
     derived := script |}.

(** Six steps: mean errors 4, 3, 3 on the coarsest level; 3.5 and then a step
    without constraints on the middle one; 1 on the finest. *)
Definition sixSteps : list Result :=
  [ result 1 0 8 2; result 1 0 6 2; result 1 0 6 2;
    result 1 0 7 2; result 0.5 0 1 0;
    result 1 1 1 1 ].

(** Two steps of equal mean error 3. *)
Definition twoEqualSteps : list Result :=
  [ result 1 0 6 2; result 1 0 6 2 ].

Definition DemoAttempt := @Attempt float Translation Image (list Result).

(** The first attempt of a call of [align]: iteration 0 of the coarsest
    level. *)
Definition firstAttempt (this : Engine) (w : Translation) (eps : float)
    (steps : option (list Translation)) : DemoAttempt :=
  let lev := numLevels this - 1 in
  let st := enterLevel lev {| st_this := this;
                              st_ws := scaled w (- numLevels this);
                              st_steps := steps |} in
  {| at_level := lev; at_iter := 0; at_before := st;
     at_outcome := alignIteration lev 0 eps st |}.

(** What the examples show of an attempt: its level and iteration, whether the
    step was accepted, and [lastError()] before and after. *)
Definition summary (a : DemoAttempt) : Z * Z * bool * float * float :=
  (at_level a, at_iter a, isAccepted (at_outcome a),
   lastError (st_this (at_before a)), lastError (st_this (at_after a))).

(** A target pyramid of five levels built beforehand. *)
Definition fiveLevels : ImagePyramid Image := create (gray 640 480) 5.

(** The first level visit of a call of [align]: that of the coarsest level. *)
Definition firstVisit (this : Engine) (w : Translation) (maxIterations : Z)
    (eps : float) (steps : option (list Translation))
  : @LevelVisit float Translation Image (list Result) :=
  visitLevel (numLevels this - 1) (Z.quot maxIterations (numLevels this)) eps
             {| st_this := this;
                st_ws := scaled w (- numLevels this);
                st_steps := steps |}.

End Demo.

(** ** Facts about the engine *)

Section EngineFacts.

Context {S P W Img D : Type}.
Context {scalarType : ScalarType S} {imageOps : ImageOps Img}
        {pyramidOps : PyramidOps Img} {warp : Warp W} {cvNorm : CvNorm P S}
        {algorithm : Algorithm D W P S Img}.

Local Notation "'Base'" := (AlignBase D S Img).
Local Notation "'Step'" := (SingleStepResult P S).
Local Notation "'State'" := (@AlignState S W Img D).

(** *** The loop body *)

(** The condition of line 184, on the step of state [st]. *)
Lemma alignIteration_unfold (lev iter : Z) (eps : S) (st : State) :
  alignIteration lev iter eps st =
  let s := stepOf st in
  let this1 := afterAlignImpl st in
  let newError := sdiv (sumErrors s) (ofInt (numConstraints s)) in
  if (numConstraints s >? 0)
     && sge (ssub (lastError this1) newError) (ofInt 0)
     && ((iter =? 0) || sge (norm (delta s)) eps)
  then
    Accepted {| st_this := withError (withDerived this1 (snd (applyStep this1 (st_ws st) s)))
                                     newError;
                st_ws := fst (applyStep this1 (st_ws st) s);
                st_steps := option_map
                              (fun v => v ++ [scaled (fst (applyStep this1 (st_ws st) s)) lev])
                              (st_steps st) |}
  else
    Rejected {| st_this := this1; st_ws := st_ws st; st_steps := st_steps st |}.
Proof.
  unfold alignIteration, stepOf, afterAlignImpl.
  destruct (alignImpl (st_this st) (st_ws st)) as [s d1]; cbn [fst snd].
  cbv zeta.
  destruct (_ && _ && _); [|reflexivity].
  destruct (applyStep _ _ _) as [ws' d2]; reflexivity.
Qed.

Lemma lastError_afterAlignImpl (st : State) :
  lastError (afterAlignImpl st) = lastError (st_this st).
Proof. reflexivity. Qed.

Lemma alignIteration_accepted_iff (lev iter : Z) (eps : S) (st : State) :
  let s := stepOf st in
  isAccepted (alignIteration lev iter eps st) = true <->
  0 < numConstraints s
  /\ sge (ssub (lastError (st_this st))
               (sdiv (sumErrors s) (ofInt (numConstraints s)))) (ofInt 0) = true
  /\ (iter = 0 \/ sge (norm (delta s)) eps = true).
Proof.
  cbv zeta. rewrite alignIteration_unfold. cbv zeta.
  rewrite lastError_afterAlignImpl.
  destruct (_ && _ && _) eqn:G; cbn [isAccepted].
  - apply andb_prop in G as [G G3]. apply andb_prop in G as [G1 G2].
    split; [intros _|reflexivity].
    split; [lia|]. split; [exact G2|].
    apply orb_prop in G3 as [G3|G3]; [left; lia | right; exact G3].
  - split; [discriminate|]. intros (H1 & H2 & H3).
    rewrite H2 in G.
    replace (numConstraints (stepOf st) >? 0) with true in G by lia.
    destruct H3 as [H3|H3].
    + replace (iter =? 0) with true in G by lia. discriminate.
    + rewrite H3, orb_true_r in G. discriminate.
Qed.

(** A rejected step leaves [ws], [_error], [_level], [_levels] and the steps
    container as they were. *)
Lemma alignIteration_rejected (lev iter : Z) (eps : S) (st : State) :
  isAccepted (alignIteration lev iter eps st) = false ->
  alignIteration lev iter eps st =
  Rejected {| st_this := afterAlignImpl st; st_ws := st_ws st; st_steps := st_steps st |}.
Proof.
  rewrite alignIteration_unfold. cbv zeta.
  destruct (_ && _ && _); cbn [isAccepted]; [discriminate|reflexivity].
Qed.

Lemma alignIteration_numLevels (lev iter : Z) (eps : S) (st : State) :
  numLevels (st_this (outcomeState (alignIteration lev iter eps st))) = numLevels (st_this st)
  /\ level (st_this (outcomeState (alignIteration lev iter eps st))) = level (st_this st).
Proof.
  rewrite alignIteration_unfold. cbv zeta.
  destruct (_ && _ && _); split; reflexivity.
Qed.

(** *** The inner loop and its attempts *)

(** The loop is read with a fuel: the fuel [align] gives it is enough, that
    is, more changes nothing. *)
Lemma iterations_fuel (fuel fuel' : nat) (lev iter ipl : Z) (eps : S) (st : State) :
  (Z.to_nat (ipl - iter) <= fuel)%nat -> (Z.to_nat (ipl - iter) <= fuel')%nat ->
  iterations fuel lev iter ipl eps st = iterations fuel' lev iter ipl eps st.
Proof.
  revert fuel' iter st.
  induction fuel as [|fuel IH]; intros fuel' iter st Hf Hf'.
  - destruct fuel' as [|fuel']; [reflexivity|].
    cbn [iterations]. destruct (iter <? ipl) eqn:E; [lia|reflexivity].
  - destruct fuel' as [|fuel'].
    + cbn [iterations]. destruct (iter <? ipl) eqn:E; [lia|reflexivity].
    + cbn [iterations]. destruct (iter <? ipl) eqn:E; [|reflexivity].
      destruct (alignIteration lev iter eps st); [|reflexivity].
      apply IH; lia.
Qed.

Lemma iterationsTrace_In (fuel : nat) (lev iter ipl : Z) (eps : S) (st : State)
    (a : Attempt) :
  In a (iterationsTrace fuel lev iter ipl eps st) ->
  at_level a = lev
  /\ iter <= at_iter a < ipl
  /\ at_outcome a = alignIteration lev (at_iter a) eps (at_before a).
Proof.
  revert iter st.
  induction fuel as [|fuel IH]; intros iter st; cbn [iterationsTrace]; [intros []|].
  destruct (iter <? ipl) eqn:E; [|intros []].
  intros [<-|Hin]; cbn.
  - repeat split; lia.
  - destruct (alignIteration lev iter eps st); [|destruct Hin].
    apply IH in Hin. intuition lia.
Qed.

(** The attempts of a level carry the iteration numbers [iter, iter+1, ...],
    each once. *)
Lemma iterationsTrace_iters (fuel : nat) (lev iter ipl : Z) (eps : S) (st : State) :
  map at_iter (iterationsTrace fuel lev iter ipl eps st) =
  map (fun i => iter + Z.of_nat i)
      (seq 0 (length (iterationsTrace fuel lev iter ipl eps st))).
Proof.
  revert iter st.
  induction fuel as [|fuel IH]; intros iter st; cbn [iterationsTrace]; [reflexivity|].
  destruct (iter <? ipl); [|reflexivity].
  cbn [map length seq at_iter]. f_equal; [lia|].
  destruct (alignIteration lev iter eps st); [|reflexivity].
  rewrite IH, <- seq_shift, map_map.
  apply map_ext. intros i. lia.
Qed.

Lemma iterationsTrace_length (fuel : nat) (lev iter ipl : Z) (eps : S) (st : State) :
  (length (iterationsTrace fuel lev iter ipl eps st) <= fuel)%nat
  /\ Z.of_nat (length (iterationsTrace fuel lev iter ipl eps st)) <= Z.max 0 (ipl - iter).
Proof.
  revert iter st.
  induction fuel as [|fuel IH]; intros iter st; cbn [iterationsTrace].
  - cbn. lia.
  - destruct (iter <? ipl) eqn:E; [|cbn; lia].
    cbn [length]. destruct (alignIteration lev iter eps st).
    + specialize (IH (iter + 1) st0). lia.
    + cbn. lia.
Qed.

(** Only the last attempt of a level can be a rejected one: after a rejected
    step nothing more is attempted there. *)
Lemma iterationsTrace_rejected_last (fuel : nat) (lev iter ipl : Z) (eps : S)
    (st : State) (pre post : list Attempt) (a : Attempt) :
  iterationsTrace fuel lev iter ipl eps st = pre ++ a :: post ->
  isAccepted (at_outcome a) = false -> post = [].
Proof.
  revert iter st pre.
  induction fuel as [|fuel IH]; intros iter st pre; cbn [iterationsTrace].
  - destruct pre; discriminate.
  - destruct (iter <? ipl); [|destruct pre; discriminate].
    destruct pre as [|b pre]; cbn [app]; intros Heq Hrej.
    + injection Heq as Ha Hpost. subst a. cbn in Hrej.
      destruct (alignIteration lev iter eps st); [discriminate|].
      symmetry; exact Hpost.
    + injection Heq as Hb Hrest.
      destruct (alignIteration lev iter eps st).
      * eapply IH; eassumption.
      * destruct pre; discriminate.
Qed.

Lemma iterationsTrace_chained (fuel : nat) (lev iter ipl : Z) (eps : S) (st : State) :
  attemptsChained st (iterationsTrace fuel lev iter ipl eps st).
Proof.
  revert iter st.
  induction fuel as [|fuel IH]; intros iter st; cbn [iterationsTrace]; [exact I|].
  destruct (iter <? ipl); [|exact I].
  cbn [attemptsChained at_before]. split; [reflexivity|].
  unfold at_after; cbn [at_outcome].
  destruct (alignIteration lev iter eps st); cbn [outcomeState]; [apply IH|exact I].
Qed.

Lemma last_cons {A} (x d : A) (l : list A) : last (x :: l) d = last l x.
Proof.
  revert x d. induction l as [|y l IH]; intros x d; [reflexivity|].
  change (last (x :: y :: l) d) with (last (y :: l) d).
  rewrite (IH y d), (IH y x). reflexivity.
Qed.

(** The loop ends in the state the last attempt left. *)
Lemma iterations_last (fuel : nat) (lev iter ipl : Z) (eps : S) (st : State) :
  iterations fuel lev iter ipl eps st =
  last (map at_after (iterationsTrace fuel lev iter ipl eps st)) st.
Proof.
  revert iter st.
  induction fuel as [|fuel IH]; intros iter st; cbn [iterations iterationsTrace];
    [reflexivity|].
  destruct (iter <? ipl); [|reflexivity].
  cbn [map]. unfold at_after at 1; cbn [at_outcome].
  destruct (alignIteration lev iter eps st) as [st'|st']; cbn [outcomeState map].
  - rewrite IH, last_cons. reflexivity.
  - reflexivity.
Qed.

Lemma option_map_app {A} (l1 l2 : list A) (o : option (list A)) :
  option_map (fun v => v ++ l2) (option_map (fun v => v ++ l1) o) =
  option_map (fun v => v ++ (l1 ++ l2)) o.
Proof. destruct o; cbn; [rewrite <- app_assoc|]; reflexivity. Qed.

Lemma option_map_app_nil {A} (o : option (list A)) :
  option_map (fun v => v ++ []) o = o.
Proof. destruct o; cbn; [rewrite app_nil_r|]; reflexivity. Qed.

Lemma alignIteration_steps (lev iter : Z) (eps : S) (st : State) :
  st_steps (outcomeState (alignIteration lev iter eps st)) =
  option_map (fun v => v ++ pushedBy {| at_level := lev; at_iter := iter;
                                        at_before := st;
                                        at_outcome := alignIteration lev iter eps st |})
             (st_steps st).
Proof.
  unfold pushedBy; cbn [at_outcome at_level].
  rewrite alignIteration_unfold. cbv zeta.
  destruct (_ && _ && _); cbn [outcomeState st_steps st_ws].
  - reflexivity.
  - symmetry; apply option_map_app_nil.
Qed.

(** The container after the loop: what it held, then what the attempts
    pushed, in the order they were made. *)
Lemma iterations_steps (fuel : nat) (lev iter ipl : Z) (eps : S) (st : State) :
  st_steps (iterations fuel lev iter ipl eps st) =
  option_map (fun v => v ++ flat_map pushedBy (iterationsTrace fuel lev iter ipl eps st))
             (st_steps st).
Proof.
  revert iter st.
  induction fuel as [|fuel IH]; intros iter st; cbn [iterations iterationsTrace].
  - cbn. symmetry; apply option_map_app_nil.
  - destruct (iter <? ipl); [|cbn; symmetry; apply option_map_app_nil].
    cbn [flat_map].
    pose proof (alignIteration_steps lev iter eps st) as Hs.
    destruct (alignIteration lev iter eps st) as [st'|st'] eqn:E; cbn [outcomeState] in Hs.
    + rewrite IH, Hs, option_map_app. reflexivity.
    + rewrite Hs. cbn [flat_map]. rewrite app_nil_r. reflexivity.
Qed.

Lemma iterations_numLevels (fuel : nat) (lev iter ipl : Z) (eps : S) (st : State) :
  numLevels (st_this (iterations fuel lev iter ipl eps st)) = numLevels (st_this st).
Proof.
  revert iter st.
  induction fuel as [|fuel IH]; intros iter st; cbn [iterations]; [reflexivity|].
  destruct (iter <? ipl); [|reflexivity].
  pose proof (alignIteration_numLevels lev iter eps st) as [Hn _].
  destruct (alignIteration lev iter eps st); cbn [outcomeState] in Hn.
  - rewrite IH. exact Hn.
  - exact Hn.
Qed.

(** *** The outer loop and its visits *)

Lemma alignLevel_numLevels (lev ipl : Z) (eps : S) (st : State) :
  numLevels (st_this (alignLevel lev ipl eps st)) = numLevels (st_this st).
Proof. unfold alignLevel. rewrite iterations_numLevels. reflexivity. Qed.

Lemma levelsFrom_fuel (fuel fuel' : nat) (lev ipl : Z) (eps : S) (st : State) :
  (Z.to_nat (lev + 1) <= fuel)%nat -> (Z.to_nat (lev + 1) <= fuel')%nat ->
  levelsFrom fuel lev ipl eps st = levelsFrom fuel' lev ipl eps st.
Proof.
  revert fuel' lev st.
  induction fuel as [|fuel IH]; intros fuel' lev st Hf Hf'.
  - destruct fuel' as [|fuel']; [reflexivity|].
    cbn [levelsFrom]. destruct (lev >=? 0) eqn:E; [lia|reflexivity].
  - destruct fuel' as [|fuel']; cbn [levelsFrom];
      destruct (lev >=? 0) eqn:E; try reflexivity; try lia.
    apply IH; lia.
Qed.

Lemma levelsTrace_In (fuel : nat) (lev ipl : Z) (eps : S) (st : State) (v : LevelVisit) :
  In v (levelsTrace fuel lev ipl eps st) ->
  v = visitLevel (lv_level v) ipl eps (lv_before v) /\ 0 <= lv_level v <= lev.
Proof.
  revert lev st.
  induction fuel as [|fuel IH]; intros lev st; cbn [levelsTrace]; [intros []|].
  destruct (lev >=? 0) eqn:E; [|intros []].
  intros [<-|Hin].
  - cbn. split; [reflexivity|lia].
  - apply IH in Hin. intuition lia.
Qed.

Lemma levelsTrace_fields (fuel : nat) (lev ipl : Z) (eps : S) (st : State)
    (v : LevelVisit) :
  In v (levelsTrace fuel lev ipl eps st) ->
  lv_entry v = enterLevel (lv_level v) (lv_before v)
  /\ lv_attempts v =
     iterationsTrace (Z.to_nat ipl) (lv_level v) 0 ipl eps (lv_entry v)
  /\ lv_exit v = iterations (Z.to_nat ipl) (lv_level v) 0 ipl eps (lv_entry v).
Proof.
  intros Hv. apply levelsTrace_In in Hv as [Hv _].
  rewrite Hv. cbn. repeat split.
Qed.

(** With the fuel of [align], the levels visited are [lev, lev-1, ..., 0]. *)
Lemma levelsTrace_levels (fuel : nat) (lev ipl : Z) (eps : S) (st : State) :
  (Z.to_nat (lev + 1) <= fuel)%nat ->
  map lv_level (levelsTrace fuel lev ipl eps st) =
  map (fun i => lev - Z.of_nat i) (seq 0 (Z.to_nat (lev + 1))).
Proof.
  revert lev st.
  induction fuel as [|fuel IH]; intros lev st Hf; cbn [levelsTrace].
  - replace (Z.to_nat (lev + 1)) with O by lia. reflexivity.
  - destruct (lev >=? 0) eqn:E.
    + replace (Z.to_nat (lev + 1)) with (Datatypes.S (Z.to_nat (lev - 1 + 1))) by lia.
      cbn [map seq lv_level visitLevel]. f_equal; [lia|].
      rewrite IH by lia.
      rewrite <- seq_shift, map_map. apply map_ext. intros i. lia.
    + replace (Z.to_nat (lev + 1)) with O by lia. reflexivity.
Qed.

Lemma levelsTrace_chained (fuel : nat) (lev ipl : Z) (eps : S) (st : State) :
  chained st (levelsTrace fuel lev ipl eps st).
Proof.
  revert lev st.
  induction fuel as [|fuel IH]; intros lev st; cbn [levelsTrace]; [exact I|].
  destruct (lev >=? 0); [|exact I].
  cbn [chained visitLevel lv_before lv_exit]. split; [reflexivity|apply IH].
Qed.

Lemma levelsFrom_lastExit (fuel : nat) (lev ipl : Z) (eps : S) (st : State) :
  levelsFrom fuel lev ipl eps st = lastExit st (levelsTrace fuel lev ipl eps st).
Proof.
  unfold lastExit. revert lev st.
  induction fuel as [|fuel IH]; intros lev st; cbn [levelsFrom levelsTrace];
    [reflexivity|].
  destruct (lev >=? 0); [|reflexivity].
  cbn [map]. rewrite last_cons, IH. reflexivity.
Qed.

Lemma levelsFrom_steps (fuel : nat) (lev ipl : Z) (eps : S) (st : State) :
  st_steps (levelsFrom fuel lev ipl eps st) =
  option_map (fun v => v ++ flat_map pushedBy
                                     (allAttempts (levelsTrace fuel lev ipl eps st)))
             (st_steps st).
Proof.
  unfold allAttempts. revert lev st.
  induction fuel as [|fuel IH]; intros lev st; cbn [levelsFrom levelsTrace].
  - cbn. symmetry; apply option_map_app_nil.
  - destruct (lev >=? 0); [|cbn; symmetry; apply option_map_app_nil].
    cbn [flat_map visitLevel lv_attempts].
    rewrite IH. unfold alignLevel at 2. rewrite iterations_steps.
    cbn [enterLevel st_steps]. rewrite option_map_app, flat_map_app. reflexivity.
Qed.

Lemma allAttempts_In (t : list (@LevelVisit S W Img D)) (a : Attempt) :
  In a (allAttempts t) <-> exists v, In v t /\ In a (lv_attempts v).
Proof. unfold allAttempts. apply in_flat_map. Qed.

(** Every attempt of a run is the loop body run on the state before it, at
    the level of its visit, and its iteration number is below the budget. *)
Lemma levelsTrace_attempt (fuel : nat) (lev ipl : Z) (eps : S) (st : State)
    (v : LevelVisit) (a : Attempt) :
  In v (levelsTrace fuel lev ipl eps st) -> In a (lv_attempts v) ->
  at_level a = lv_level v
  /\ 0 <= at_iter a < ipl
  /\ at_outcome a = alignIteration (at_level a) (at_iter a) eps (at_before a).
Proof.
  intros Hv Ha. apply levelsTrace_In in Hv as [Hv _].
  rewrite Hv in Ha. cbn [visitLevel lv_attempts] in Ha.
  apply iterationsTrace_In in Ha as (H1 & H2 & H3).
  rewrite H1. auto.
Qed.

(** *** The acceptance rule *)

(** C1. At every level and iteration of [align] the step is accepted exactly
    when [numConstraints > 0], [errorChange = lastError - newError >= 0], and
    the iteration is the first of its level or [norm(delta) >= eps], where
    [newError = sumErrors / numConstraints].  An accepted step is applied to
    the working warp by [applyStep], [lastError] becomes [newError], and the
    warp, rescaled by [scaled(level)], is appended to the steps container when
    there is one; after the call the container holds what it held before
    followed by the pushed warps in the order the steps were accepted, over
    all levels.  The iteration numbers of a level's attempts are 0, 1, 2, ...,
    so iteration 0 is the first of the level. *)
Theorem align_accepts_step (this : Base) (w : W) (maxIterations : Z) (eps : S)
    (steps : option (list W)) :
  let t := alignTrace this w maxIterations eps steps in
  (forall a, In a (allAttempts t) ->
     let s := at_step a in
     let newError := sdiv (sumErrors s) (ofInt (numConstraints s)) in
     let errorChange := ssub (lastError (st_this (at_before a))) newError in
     (isAccepted (at_outcome a) = true <->
        0 < numConstraints s
        /\ sge errorChange (ofInt 0) = true
        /\ (at_iter a = 0 \/ sge (norm (delta s)) eps = true))
     /\ (isAccepted (at_outcome a) = true ->
         st_ws (at_after a) =
           fst (applyStep (afterAlignImpl (at_before a)) (st_ws (at_before a)) s)
         /\ lastError (st_this (at_after a)) = newError
         /\ st_steps (at_after a) =
             option_map (fun v => v ++ [scaled (st_ws (at_after a)) (at_level a)])
                        (st_steps (at_before a))))
  /\ (forall v, In v t ->
        map at_iter (lv_attempts v) =
        map Z.of_nat (seq 0 (length (lv_attempts v))))
  /\ st_steps (align this w maxIterations eps steps) =
       option_map (fun v => v ++ flat_map pushedBy (allAttempts t)) steps.
Proof.
  intros t. split; [|split].
  - intros a Ha. apply allAttempts_In in Ha as (v & Hv & Ha).
    pose proof (levelsTrace_attempt _ _ _ _ _ _ _ Hv Ha) as (_ & _ & Ho).
    cbv zeta. unfold at_after, at_step. rewrite Ho. split.
    + apply alignIteration_accepted_iff.
    + rewrite alignIteration_unfold. cbv zeta.
      destruct (_ && _ && _); cbn [isAccepted]; [intros _|discriminate].
      cbn [outcomeState st_ws st_this st_steps]. repeat split.
  - intros v Hv. apply levelsTrace_In in Hv as [Hv _]. rewrite Hv.
    cbn [visitLevel lv_attempts]. rewrite iterationsTrace_iters.
    apply map_ext. intros i. lia.
  - unfold align, t, alignTrace. cbv zeta. rewrite levelsFrom_steps. reflexivity.
Qed.

(** *** The iteration budget *)

Lemma allAttempts_length_le (t : list (@LevelVisit S W Img D)) (b : Z) :
  (forall v, In v t -> Z.of_nat (length (lv_attempts v)) <= b) ->
  Z.of_nat (length (allAttempts t)) <= Z.of_nat (length t) * b.
Proof.
  unfold allAttempts. induction t as [|v t IH]; intros Hb; [cbn; lia|].
  cbn [flat_map]. rewrite length_app. cbn [length].
  specialize (Hb v (or_introl eq_refl)) as Hv.
  specialize (IH (fun u Hu => Hb u (or_intror Hu))). lia.
Qed.

Lemma alignTrace_length (this : Base) (w : W) (maxIterations : Z) (eps : S)
    (steps : option (list W)) :
  Z.of_nat (length (alignTrace this w maxIterations eps steps)) =
  Z.max 0 (numLevels this).
Proof.
  unfold alignTrace.
  rewrite <- (length_map lv_level), levelsTrace_levels by lia.
  rewrite length_map, length_seq. lia.
Qed.

(** C3. The budget of a level is [maxIterations / numLevels()], the quotient
    truncated towards zero: every level runs the inner loop with that bound,
    attempts no more steps than that, and what the division leaves over goes
    to no level.  With [maxIterations = numLevels()] the budget is 1 and no
    level attempts a second step. *)
Theorem align_iteration_budget (this : Base) (w : W) (maxIterations : Z) (eps : S)
    (steps : option (list W)) :
  1 <= numLevels this ->
  let iterationsPerLevel := Z.quot maxIterations (numLevels this) in
  let t := alignTrace this w maxIterations eps steps in
  (forall v, In v t ->
     v = visitLevel (lv_level v) iterationsPerLevel eps (lv_before v)
     /\ Z.of_nat (length (lv_attempts v)) <= Z.max 0 iterationsPerLevel
     /\ forall a, In a (lv_attempts v) -> 0 <= at_iter a < iterationsPerLevel)
  /\ (0 <= maxIterations ->
      numLevels this * iterationsPerLevel =
        maxIterations - Z.rem maxIterations (numLevels this)
      /\ 0 <= Z.rem maxIterations (numLevels this) < numLevels this
      /\ Z.of_nat (length (allAttempts t)) <= numLevels this * iterationsPerLevel)
  /\ (maxIterations = numLevels this ->
      iterationsPerLevel = 1
      /\ forall v, In v t ->
           (length (lv_attempts v) <= 1)%nat
           /\ forall a, In a (lv_attempts v) -> at_iter a = 0).
Proof.
  intros Hn ipl t.
  assert (Hvisit : forall v, In v t ->
     v = visitLevel (lv_level v) ipl eps (lv_before v)
     /\ Z.of_nat (length (lv_attempts v)) <= Z.max 0 ipl
     /\ forall a, In a (lv_attempts v) -> 0 <= at_iter a < ipl).
  { intros v Hv.
    pose proof (levelsTrace_In _ _ ipl _ _ _ Hv) as [Hvis _].
    split; [exact Hvis|]. split.
    - rewrite Hvis. cbn [visitLevel lv_attempts].
      pose proof (iterationsTrace_length (Z.to_nat ipl) (lv_level v) 0 ipl eps
                    (enterLevel (lv_level v) (lv_before v))) as [_ H].
      lia.
    - intros a Ha. eapply (levelsTrace_attempt _ _ ipl); eassumption. }
  split; [exact Hvisit|]. split.
  - intros Hm.
    pose proof (Z.quot_rem' maxIterations (numLevels this)) as Hqr.
    pose proof (Z.rem_bound_pos maxIterations (numLevels this) Hm ltac:(lia)) as Hr.
    assert (0 <= ipl) by (apply Z.quot_pos; lia).
    fold ipl in Hqr. split; [lia|]. split; [lia|].
    pose proof (allAttempts_length_le t ipl) as Hl.
    pose proof (alignTrace_length this w maxIterations eps steps) as Ht. fold t in Ht.
    rewrite Ht in Hl. replace (Z.max 0 (numLevels this)) with (numLevels this) in Hl by lia.
    apply Hl. intros v Hv. destruct (Hvisit v Hv) as (_ & H1 & _). lia.
  - intros ->.
    assert (Hone : ipl = 1) by (apply Z.quot_same; lia).
    split; [exact Hone|]. intros v Hv.
    destruct (Hvisit v Hv) as (_ & H1 & H2). rewrite Hone in H1, H2.
    split; [lia|]. intros a Ha. specialize (H2 a Ha). lia.
Qed.

(** *** Coarse to fine *)

Lemma levelsTrace_numLevels (fuel : nat) (lev ipl : Z) (eps : S) (st : State)
    (v : LevelVisit) :
  In v (levelsTrace fuel lev ipl eps st) ->
  numLevels (st_this (lv_before v)) = numLevels (st_this st).
Proof.
  revert lev st.
  induction fuel as [|fuel IH]; intros lev st; cbn [levelsTrace]; [intros []|].
  destruct (lev >=? 0); [|intros []].
  intros [<-|Hin]; [reflexivity|].
  apply IH in Hin. rewrite Hin. apply alignLevel_numLevels.
Qed.

(** After a visit comes the visit of the next finer level, from the state the
    visit left; after the visit of level 0 comes none. *)
Lemma levelsTrace_next (fuel : nat) (lev ipl : Z) (eps : S) (st : State)
    (t1 t2 : list LevelVisit) (v : LevelVisit) :
  (Z.to_nat (lev + 1) <= fuel)%nat ->
  levelsTrace fuel lev ipl eps st = t1 ++ v :: t2 ->
  match t2 with
  | [] => lv_level v = 0
  | v' :: _ => lv_level v' = lv_level v - 1 /\ lv_before v' = lv_exit v
  end.
Proof.
  revert lev st t1.
  induction fuel as [|fuel IH]; intros lev st t1 Hf; cbn [levelsTrace].
  - destruct t1; discriminate.
  - destruct (lev >=? 0) eqn:E; [|destruct t1; discriminate].
    destruct t1 as [|b t1]; cbn [app]; intros Heq.
    + injection Heq as Hv Ht2. subst v.
      destruct fuel as [|fuel]; cbn [levelsTrace] in Ht2.
      * subst t2. cbn. lia.
      * destruct (lev - 1 >=? 0) eqn:E'.
        -- subst t2. cbn. split; reflexivity.
        -- subst t2. cbn. lia.
    + injection Heq as _ Hrest. eapply IH; [|exact Hrest]. lia.
Qed.

Lemma setLevel_level (this : Base) (lev : Z) :
  level (setLevel this lev) = Z.max 0 (Z.min lev (numLevels this - 1)).
Proof. reflexivity. Qed.

Section LevelOfParameters.

(** The pyramid level a warp's parameters are expressed in, for a warp that
    knows it: [scaled(k)] moves [k] levels finer, [applyStep] stays. *)
Variable paramLevel : W -> Z.
Hypothesis paramLevel_scaled :
  forall (w : W) (k : Z), paramLevel (scaled w k) = paramLevel w - k.
Hypothesis paramLevel_applyStep :
  forall (this : Base) (w : W) (s : Step),
    paramLevel (fst (applyStep this w s)) = paramLevel w.

Lemma alignIteration_paramLevel (lev iter : Z) (eps : S) (st : State) :
  paramLevel (st_ws (outcomeState (alignIteration lev iter eps st))) =
  paramLevel (st_ws st).
Proof.
  rewrite alignIteration_unfold. cbv zeta.
  destruct (_ && _ && _); cbn [outcomeState st_ws]; [|reflexivity].
  apply paramLevel_applyStep.
Qed.

Lemma iterations_paramLevel (fuel : nat) (lev iter ipl : Z) (eps : S) (st : State) :
  paramLevel (st_ws (iterations fuel lev iter ipl eps st)) = paramLevel (st_ws st).
Proof.
  revert iter st.
  induction fuel as [|fuel IH]; intros iter st; cbn [iterations]; [reflexivity|].
  destruct (iter <? ipl); [|reflexivity].
  pose proof (alignIteration_paramLevel lev iter eps st) as Hp.
  destruct (alignIteration lev iter eps st); cbn [outcomeState] in Hp.
  - rewrite IH. exact Hp.
  - exact Hp.
Qed.

Lemma alignLevel_paramLevel (lev ipl : Z) (eps : S) (st : State) :
  paramLevel (st_ws (alignLevel lev ipl eps st)) = paramLevel (st_ws st) - 1.
Proof.
  unfold alignLevel. rewrite iterations_paramLevel.
  cbn [enterLevel st_ws]. apply paramLevel_scaled.
Qed.

Lemma levelsTrace_paramLevel (fuel : nat) (lev ipl : Z) (eps : S) (st : State)
    (v : LevelVisit) :
  In v (levelsTrace fuel lev ipl eps st) ->
  paramLevel (st_ws (lv_before v)) = paramLevel (st_ws st) - (lev - lv_level v).
Proof.
  revert lev st.
  induction fuel as [|fuel IH]; intros lev st; cbn [levelsTrace]; [intros []|].
  destruct (lev >=? 0); [|intros []].
  intros [<-|Hin]; [cbn; lia|].
  apply IH in Hin. rewrite Hin, alignLevel_paramLevel. lia.
Qed.

Lemma levelsFrom_paramLevel (fuel : nat) (lev ipl : Z) (eps : S) (st : State) :
  -1 <= lev -> (Z.to_nat (lev + 1) <= fuel)%nat ->
  paramLevel (st_ws (levelsFrom fuel lev ipl eps st)) = paramLevel (st_ws st) - (lev + 1).
Proof.
  revert lev st.
  induction fuel as [|fuel IH]; intros lev st Hl Hf; cbn [levelsFrom]; [lia|].
  destruct (lev >=? 0) eqn:E; [|lia].
  rewrite IH by lia. rewrite alignLevel_paramLevel. lia.
Qed.

End LevelOfParameters.

(** C2. [align] starts from [w.scaled(-numLevels())]; the levels are visited
    in the order [numLevels()-1, ..., 0], one visit each, every visit from the
    state the one before left; on entering a level the warp is rescaled by
    [scaled(1)], the active level is that level and [lastError()] is the
    sentinel; the result is the state the visit of level 0 left.  So the
    rescalings applied are [-numLevels()] once and [+1] once per level, which
    add up to 0.  For every measure of the level a warp's parameters are
    expressed in ([scaled(k)] moves [k] levels finer, [applyStep] stays), the
    working warp is at the level being visited throughout the visit, and the
    warp written back is at the level of the warp passed in, however many
    levels there are. *)
Theorem align_coarse_to_fine (this : Base) (w : W) (maxIterations : Z) (eps : S)
    (steps : option (list W)) :
  1 <= numLevels this ->
  let n := numLevels this in
  let t := alignTrace this w maxIterations eps steps in
  let start := {| st_this := this; st_ws := scaled w (- n); st_steps := steps |} in
  map lv_level t = levelsVisited n
  /\ Z.of_nat (length t) = n
  /\ chained start t
  /\ (forall v, In v t ->
        st_ws (lv_entry v) = scaled (st_ws (lv_before v)) 1
        /\ level (st_this (lv_entry v)) = lv_level v
        /\ lastError (st_this (lv_entry v)) = smax
        /\ attemptsChained (lv_entry v) (lv_attempts v)
        /\ lv_exit v = last (map at_after (lv_attempts v)) (lv_entry v))
  /\ align this w maxIterations eps steps = lastExit start t
  /\ (forall paramLevel : W -> Z,
        (forall (w' : W) (k : Z), paramLevel (scaled w' k) = paramLevel w' - k) ->
        (forall (this' : Base) (w' : W) (s : Step),
            paramLevel (fst (applyStep this' w' s)) = paramLevel w') ->
        (forall v, In v t ->
           paramLevel (st_ws (lv_entry v)) = paramLevel w + lv_level v
           /\ paramLevel (st_ws (lv_exit v)) = paramLevel w + lv_level v)
        /\ paramLevel (st_ws (align this w maxIterations eps steps)) = paramLevel w).
Proof.
  intros Hn n t start.
  split; [|split; [|split; [|split; [|split]]]].
  - unfold t, alignTrace, levelsVisited. rewrite levelsTrace_levels by lia.
    replace (numLevels this - 1 + 1) with n by (unfold n; lia).
    apply map_ext. intros i. unfold n. lia.
  - unfold t. rewrite alignTrace_length. unfold n. lia.
  - apply levelsTrace_chained.
  - intros v Hv.
    pose proof (levelsTrace_In _ _ _ _ _ _ Hv) as [_ Hrange].
    pose proof (levelsTrace_fields _ _ _ _ _ _ Hv) as (Hentry & Hatt & Hexit).
    pose proof (levelsTrace_numLevels _ _ _ _ _ _ Hv) as Hnum.
    cbn [st_this] in Hnum.
    repeat split.
    + rewrite Hentry. reflexivity.
    + rewrite Hentry. cbn [enterLevel st_this]. rewrite setLevel_level, Hnum. lia.
    + rewrite Hentry. reflexivity.
    + rewrite Hatt. apply iterationsTrace_chained.
    + rewrite Hexit, Hatt. apply iterations_last.
  - unfold align, t, alignTrace. cbv zeta. apply levelsFrom_lastExit.
  - intros paramLevel Hscaled Happly. split.
    + intros v Hv.
      pose proof (levelsTrace_fields _ _ _ _ _ _ Hv) as (Hentry & _ & Hexit).
      pose proof (levelsTrace_paramLevel paramLevel Hscaled Happly _ _ _ _ _ _ Hv)
        as Hpar.
      cbn [st_ws] in Hpar. rewrite Hscaled in Hpar.
      assert (Hlev : paramLevel (st_ws (lv_entry v)) = paramLevel w + lv_level v).
      { rewrite Hentry. cbn [enterLevel st_ws]. rewrite Hscaled, Hpar. lia. }
      split; [exact Hlev|].
      rewrite Hexit, (iterations_paramLevel paramLevel Happly). exact Hlev.
    + unfold align. cbv zeta.
      rewrite (levelsFrom_paramLevel paramLevel Hscaled Happly) by lia.
      cbn [st_ws]. rewrite Hscaled. lia.
Qed.

(** *** Steps without constraints *)

Lemma attempt_split (l : list (@Attempt S W Img D)) (a : Attempt) :
  In a l -> exists pre post, l = pre ++ a :: post.
Proof. apply in_split. Qed.

Lemma last_map_app {A B} (f : A -> B) (pre : list A) (a : A) (d : B) :
  last (map f (pre ++ [a])) d = f a.
Proof. rewrite map_app. cbn [map]. apply last_last. Qed.

(** C4. A step with [numConstraints == 0] is rejected: the working warp,
    [lastError()] and the steps container stay as they were; it is the last
    attempt of its level; the level after it, if there is one, is the next
    finer one and is entered with [scaled(1)] of the warp the rejected attempt
    started from, and the call returns the state the last level left. *)
Theorem align_no_constraints (this : Base) (w : W) (maxIterations : Z) (eps : S)
    (steps : option (list W)) (a : Attempt) :
  let t := alignTrace this w maxIterations eps steps in
  In a (allAttempts t) ->
  numConstraints (at_step a) = 0 ->
  at_outcome a =
    Rejected {| st_this := afterAlignImpl (at_before a);
                st_ws := st_ws (at_before a);
                st_steps := st_steps (at_before a) |}
  /\ st_ws (at_after a) = st_ws (at_before a)
  /\ lastError (st_this (at_after a)) = lastError (st_this (at_before a))
  /\ (exists t1 v t2 pre,
        t = t1 ++ v :: t2
        /\ lv_attempts v = pre ++ [a]
        /\ lv_exit v = at_after a
        /\ match t2 with
           | [] => lv_level v = 0
           | v' :: _ =>
             lv_level v' = lv_level v - 1
             /\ lv_before v' = at_after a
             /\ st_ws (lv_entry v') = scaled (st_ws (at_before a)) 1
           end)
  /\ align this w maxIterations eps steps =
     lastExit {| st_this := this;
                 st_ws := scaled w (- numLevels this);
                 st_steps := steps |} t.
Proof.
  intros t Ha Hzero.
  apply allAttempts_In in Ha as (v & Hv & Ha).
  pose proof (levelsTrace_attempt _ _ _ _ _ _ _ Hv Ha) as (_ & _ & Ho).
  assert (Hrej : isAccepted (at_outcome a) = false).
  { destruct (isAccepted (at_outcome a)) eqn:E; [|reflexivity].
    rewrite Ho in E. apply alignIteration_accepted_iff in E as [E _].
    unfold at_step in Hzero. lia. }
  assert (Hout : at_outcome a =
                 Rejected {| st_this := afterAlignImpl (at_before a);
                             st_ws := st_ws (at_before a);
                             st_steps := st_steps (at_before a) |}).
  { rewrite Ho. apply alignIteration_rejected. rewrite <- Ho. exact Hrej. }
  assert (Hws : st_ws (at_after a) = st_ws (at_before a))
    by (unfold at_after; rewrite Hout; reflexivity).
  split; [exact Hout|]. split; [exact Hws|].
  split; [unfold at_after; rewrite Hout; reflexivity|].
  split.
  - pose proof (levelsTrace_fields _ _ _ _ _ _ Hv) as (_ & Hatt & Hexit).
    destruct (attempt_split _ _ Ha) as (pre & post & Hsplit).
    assert (post = []).
    { rewrite Hatt in Hsplit.
      eapply iterationsTrace_rejected_last; eassumption. }
    subst post.
    assert (Hlast : lv_exit v = at_after a).
    { rewrite Hexit, iterations_last, <- Hatt, Hsplit. apply last_map_app. }
    destruct (in_split _ _ Hv) as (t1 & t2 & Ht).
    exists t1, v, t2, pre.
    split; [exact Ht|]. split; [exact Hsplit|]. split; [exact Hlast|].
    assert (Hfuel : (Z.to_nat (numLevels this - 1 + 1) <= Z.to_nat (numLevels this))%nat)
      by lia.
    pose proof (levelsTrace_next _ _ _ _ _ t1 t2 v Hfuel Ht) as Hnext.
    destruct t2 as [|v' t2]; [exact Hnext|].
    destruct Hnext as [Hl Hb]. split; [exact Hl|].
    rewrite <- Hlast. split; [exact Hb|].
    assert (Hv' : In v' t) by (rewrite Ht; apply in_or_app; right; right; left; reflexivity).
    pose proof (levelsTrace_fields _ _ _ _ _ _ Hv') as (Hentry' & _ & _).
    rewrite Hentry'. cbn [enterLevel st_ws]. rewrite Hb, Hlast, Hws. reflexivity.
  - unfold align, t, alignTrace. cbv zeta. apply levelsFrom_lastExit.
Qed.

(** *** No retries *)

Lemma levelsVisited_NoDup (n : Z) : NoDup (levelsVisited n).
Proof.
  unfold levelsVisited.
  apply Injective_map_NoDup; [|apply seq_NoDup].
  intros i j Hij. lia.
Qed.

(** C7, as the code has it.  Nothing is attempted twice: the levels visited
    are pairwise different, the attempts of a level carry the iteration
    numbers 0, 1, 2, ... once each, and a rejected attempt is the last of its
    level.  An accepted step has not increased the error as far as line 185
    tests it, [lastError - newError >= 0], and [lastError()] is [newError]
    afterwards; the error may stay the same. *)
Theorem align_no_retry (this : Base) (w : W) (maxIterations : Z) (eps : S)
    (steps : option (list W)) :
  let t := alignTrace this w maxIterations eps steps in
  NoDup (map lv_level t)
  /\ (forall v, In v t ->
        map at_iter (lv_attempts v) = map Z.of_nat (seq 0 (length (lv_attempts v)))
        /\ forall pre a post,
             lv_attempts v = pre ++ a :: post ->
             isAccepted (at_outcome a) = false -> post = [])
  /\ (forall a, In a (allAttempts t) ->
        isAccepted (at_outcome a) = true ->
        let newError := sdiv (sumErrors (at_step a))
                             (ofInt (numConstraints (at_step a))) in
        sge (ssub (lastError (st_this (at_before a))) newError) (ofInt 0) = true
        /\ lastError (st_this (at_after a)) = newError).
Proof.
  intros t. split; [|split].
  - unfold t, alignTrace. rewrite levelsTrace_levels by lia.
    destruct (Z.le_gt_cases 0 (numLevels this)) as [Hn|Hn].
    + pose proof (levelsVisited_NoDup (numLevels this)) as Hnd.
      unfold levelsVisited in Hnd.
      replace (numLevels this - 1 + 1) with (numLevels this) by lia.
      exact Hnd.
    + replace (Z.to_nat (numLevels this - 1 + 1)) with O by lia. constructor.
  - intros v Hv.
    pose proof (levelsTrace_fields _ _ _ _ _ _ Hv) as (_ & Hatt & _).
    split.
    + rewrite Hatt at 1. rewrite iterationsTrace_iters, <- Hatt.
      apply map_ext. intros i. lia.
    + intros pre a post Hsplit Hrej. rewrite Hatt in Hsplit.
      eapply iterationsTrace_rejected_last; eassumption.
  - intros a Ha Hacc. apply allAttempts_In in Ha as (v & Hv & Ha).
    pose proof (levelsTrace_attempt _ _ _ _ _ _ _ Hv Ha) as (_ & _ & Ho).
    cbv zeta. split.
    + rewrite Ho in Hacc. apply alignIteration_accepted_iff in Hacc.
      apply Hacc.
    + unfold at_after, at_step. rewrite Ho in Hacc |- *.
      rewrite alignIteration_unfold in Hacc |- *. cbv zeta in Hacc |- *.
      destruct (_ && _ && _); [reflexivity|discriminate].
Qed.

(** *** The division of line 181 *)

Lemma alignIterationChecked_unfold (lev iter : Z) (eps : S) (st : State) :
  alignIterationChecked lev iter eps st =
  if numConstraints (stepOf st) =? 0 then None
  else Some (alignIteration lev iter eps st).
Proof.
  unfold alignIterationChecked, alignIteration, stepOf, checkedDiv.
  destruct (alignImpl (st_this st) (st_ws st)) as [s d1]; cbn [fst snd].
  destruct (numConstraints s =? 0); [reflexivity|].
  cbv zeta. destruct (_ && _ && _); [|reflexivity].
  destruct (applyStep _ _ _); reflexivity.
Qed.

Lemma iterationsChecked_trace (fuel : nat) (lev iter ipl : Z) (eps : S) (st : State) :
  iterationsChecked fuel lev iter ipl eps st =
  if existsb dividesByZero (iterationsTrace fuel lev iter ipl eps st) then None
  else Some (iterations fuel lev iter ipl eps st).
Proof.
  revert iter st.
  induction fuel as [|fuel IH]; intros iter st;
    cbn [iterationsChecked iterationsTrace iterations]; [reflexivity|].
  destruct (iter <? ipl); [|reflexivity].
  rewrite alignIterationChecked_unfold.
  cbn [existsb]. unfold dividesByZero at 1, at_step; cbn [at_before].
  destruct (numConstraints (stepOf st) =? 0); [reflexivity|].
  cbn [orb].
  destruct (alignIteration lev iter eps st); [apply IH|reflexivity].
Qed.

Lemma levelsFromChecked_trace (fuel : nat) (lev ipl : Z) (eps : S) (st : State) :
  levelsFromChecked fuel lev ipl eps st =
  if existsb dividesByZero (allAttempts (levelsTrace fuel lev ipl eps st)) then None
  else Some (levelsFrom fuel lev ipl eps st).
Proof.
  unfold allAttempts. revert lev st.
  induction fuel as [|fuel IH]; intros lev st;
    cbn [levelsFromChecked levelsTrace levelsFrom]; [reflexivity|].
  destruct (lev >=? 0); [|reflexivity].
  cbn [flat_map visitLevel lv_attempts]. rewrite existsb_app.
  rewrite iterationsChecked_trace.
  destruct (existsb dividesByZero _); [reflexivity|].
  cbn [orb]. apply IH.
Qed.

(** C10. [newError = sumErrors / numConstraints] is computed on line 181,
    before line 184 tests [numConstraints > 0].  With a division that reports
    a zero divisor, an iteration reports one exactly when its step has
    [numConstraints == 0], and is the loop body otherwise; the whole call
    reports one exactly when some attempt of the run has
    [numConstraints == 0], and returns what [align] returns otherwise.  In
    [align] itself such a step is rejected and [lastError()] keeps its
    value. *)
Theorem align_division_before_guard (this : Base) (w : W) (maxIterations : Z)
    (eps : S) (steps : option (list W)) :
  let t := alignTrace this w maxIterations eps steps in
  (forall a, In a (allAttempts t) ->
     (alignIterationChecked (at_level a) (at_iter a) eps (at_before a) = None <->
        numConstraints (at_step a) = 0)
     /\ (numConstraints (at_step a) <> 0 ->
         alignIterationChecked (at_level a) (at_iter a) eps (at_before a) =
         Some (at_outcome a))
     /\ (numConstraints (at_step a) = 0 ->
         isAccepted (at_outcome a) = false
         /\ lastError (st_this (at_after a)) = lastError (st_this (at_before a))))
  /\ (alignChecked this w maxIterations eps steps = None <->
      exists a, In a (allAttempts t) /\ numConstraints (at_step a) = 0)
  /\ ((forall a, In a (allAttempts t) -> numConstraints (at_step a) <> 0) ->
      alignChecked this w maxIterations eps steps =
      Some (align this w maxIterations eps steps)).
Proof.
  intros t.
  assert (Hrun : alignChecked this w maxIterations eps steps =
                 if existsb dividesByZero (allAttempts t) then None
                 else Some (align this w maxIterations eps steps))
    by apply levelsFromChecked_trace.
  split; [|split].
  - intros a Ha. apply allAttempts_In in Ha as (v & Hv & Ha).
    pose proof (levelsTrace_attempt _ _ _ _ _ _ _ Hv Ha) as (_ & _ & Ho).
    rewrite alignIterationChecked_unfold. fold (at_step a).
    split; [|split].
    + destruct (numConstraints (at_step a) =? 0) eqn:E.
      * split; [lia|reflexivity].
      * split; [discriminate|lia].
    + intros Hnz. destruct (numConstraints (at_step a) =? 0) eqn:E; [lia|].
      rewrite Ho. reflexivity.
    + intros Hz.
      assert (Hrej : isAccepted (at_outcome a) = false).
      { destruct (isAccepted (at_outcome a)) eqn:E; [|reflexivity].
        rewrite Ho in E. apply alignIteration_accepted_iff in E as [E _].
        unfold at_step in Hz. lia. }
      split; [exact Hrej|].
      unfold at_after. rewrite Ho in Hrej |- *.
      rewrite (alignIteration_rejected _ _ _ _ Hrej). reflexivity.
  - rewrite Hrun. destruct (existsb dividesByZero (allAttempts t)) eqn:E.
    + split; [intros _|reflexivity].
      apply existsb_exists in E as (a & Ha & Hz). exists a.
      split; [exact Ha|]. unfold dividesByZero in Hz. lia.
    + split; [discriminate|]. intros (a & Ha & Hz).
      assert (existsb dividesByZero (allAttempts t) = true).
      { apply existsb_exists. exists a. split; [exact Ha|].
        unfold dividesByZero. lia. }
      congruence.
  - intros Hall. rewrite Hrun.
    destruct (existsb dividesByZero (allAttempts t)) eqn:E; [|reflexivity].
    apply existsb_exists in E as (a & Ha & Hz).
    unfold dividesByZero in Hz. specialize (Hall a Ha). lia.
Qed.

(** *** [setLevel] and [prepare] *)

Lemma prepare_ok (this : Base) (tmpl target : Img) (w : W) (pyramidLevels : Z) :
  channels tmpl = 1 -> channels target = 1 ->
  prepare this tmpl target w pyramidLevels =
  let levels := sanitizeLevels pyramidLevels
                  (Z.min (maxLevelsForImageSize (size tmpl))
                         (maxLevelsForImageSize (size target))) in
  let this2 := setLevel (withPyramids this levels (create tmpl levels)
                                      (create target levels)) 0 in
  Some (withDerived this2 (prepareImpl this2 w)).
Proof.
  intros Ht Hg. unfold prepare. rewrite Ht, Hg. reflexivity.
Qed.

Lemma prepare_inv (this this' : Base) (tmpl target : Img) (w : W) (pyramidLevels : Z) :
  prepare this tmpl target w pyramidLevels = Some this' ->
  channels tmpl = 1 /\ channels target = 1.
Proof.
  unfold prepare.
  destruct (channels tmpl =? 1) eqn:Et; [|discriminate].
  destruct (channels target =? 1) eqn:Eg; [|discriminate].
  intros _. split; lia.
Qed.

Lemma prepareWithPyramid_ok (this : Base) (tmpl : Img) (target : ImagePyramid Img)
    (w : W) (pyramidLevels : Z) :
  0 < pyrNumLevels target -> channels tmpl = 1 ->
  option_map channels (pyrAt target 0) = Some 1 ->
  prepareWithPyramid this tmpl target w pyramidLevels =
  let levels := sanitizeLevels pyramidLevels
                  (Z.min (maxLevelsForImageSize (size tmpl)) (pyrNumLevels target)) in
  let targetPyramid :=
    if pyrNumLevels target >? levels then slice target 0 levels else target in
  let this2 := setLevel (withPyramids this levels (create tmpl levels) targetPyramid) 0 in
  Some (withDerived this2 (prepareImpl this2 w)).
Proof.
  intros Hn Ht H0. unfold prepareWithPyramid.
  replace (pyrNumLevels target >? 0) with true by lia.
  rewrite Ht. cbn [negb Z.eqb Pos.eqb].
  destruct (pyrAt target 0) as [t0|]; [|discriminate].
  cbn in H0. injection H0 as H0. rewrite H0. reflexivity.
Qed.

Lemma prepareWithPyramid_inv (this this' : Base) (tmpl : Img)
    (target : ImagePyramid Img) (w : W) (pyramidLevels : Z) :
  prepareWithPyramid this tmpl target w pyramidLevels = Some this' ->
  0 < pyrNumLevels target /\ channels tmpl = 1
  /\ option_map channels (pyrAt target 0) = Some 1.
Proof.
  unfold prepareWithPyramid.
  destruct (pyrNumLevels target >? 0) eqn:En; [|discriminate].
  destruct (channels tmpl =? 1) eqn:Et; [|discriminate].
  cbn [negb].
  destruct (pyrAt target 0) as [t0|]; [|discriminate].
  destruct (channels t0 =? 1) eqn:E0; [|discriminate].
  intros _. cbn. repeat split; try lia. f_equal. lia.
Qed.

(** C9. [setLevel] stores the requested level clamped as
    [max(0, min(requested, numLevels()-1))], which for an engine with at
    least one level lies in [0, numLevels()-1] and is the requested level when
    that is in range; it sets [lastError()] to the sentinel
    [numeric_limits<ScalarType>::max()], and the image accessors read the
    pyramids at the stored level.  Both overloads of [prepare] succeed on the
    inputs their assertions admit, and leave the active level 0 and
    [lastError()] the sentinel. *)
Theorem setLevel_clamps (this : Base) (requested : Z) :
  level (setLevel this requested) = Z.max 0 (Z.min requested (numLevels this - 1))
  /\ lastError (setLevel this requested) = smax
  /\ numLevels (setLevel this requested) = numLevels this
  /\ templateImage (setLevel this requested) =
       pyrAt (_templatePyramid this) (level (setLevel this requested))
  /\ targetImage (setLevel this requested) =
       pyrAt (_targetPyramid this) (level (setLevel this requested))
  /\ (1 <= numLevels this ->
       0 <= level (setLevel this requested) <= numLevels this - 1
       /\ (0 <= requested <= numLevels this - 1 ->
            level (setLevel this requested) = requested)
       /\ (requested < 0 -> level (setLevel this requested) = 0)
       /\ (numLevels this - 1 < requested ->
            level (setLevel this requested) = numLevels this - 1))
  /\ (forall (tmpl target : Img) (w : W) (pyramidLevels : Z),
        channels tmpl = 1 -> channels target = 1 ->
        exists this', prepare this tmpl target w pyramidLevels = Some this'
                      /\ level this' = 0 /\ lastError this' = smax)
  /\ (forall (tmpl : Img) (target : ImagePyramid Img) (w : W) (pyramidLevels : Z),
        0 < pyrNumLevels target -> channels tmpl = 1 ->
        option_map channels (pyrAt target 0) = Some 1 ->
        exists this', prepareWithPyramid this tmpl target w pyramidLevels = Some this'
                      /\ level this' = 0 /\ lastError this' = smax).
Proof.
  do 5 (split; [reflexivity|]).
  split; [|split].
  - intros Hn. unfold setLevel, level, numLevels in *. cbn. lia.
  - intros tmpl target w pyramidLevels Ht Hg.
    rewrite (prepare_ok _ _ _ _ _ Ht Hg). cbv zeta.
    eexists. split; [reflexivity|].
    unfold level, lastError, sanitizeLevels. cbn. split; [lia|reflexivity].
  - intros tmpl target w pyramidLevels Hn Ht H0.
    rewrite (prepareWithPyramid_ok _ _ _ _ _ Hn Ht H0). cbv zeta.
    eexists. split; [reflexivity|].
    unfold level, lastError, sanitizeLevels. cbn. split; [lia|reflexivity].
Qed.

(** C5.  On single-channel images and a request of at least one level, the
    first overload of [prepare] succeeds with
    [numLevels() = max(1, min(requested, maxLevelsForImageSize(template size),
    maxLevelsForImageSize(target size)))]; this lies in [1, requested], and
    it does not exceed the level count the size of an image supports, a
    supported count being at least 1.  ([maxLevelsForImageSize] belongs to
    [image_pyramid.h]; were it to return less than 1, line 93 would still
    give one level.) *)
Theorem prepare_numLevels (this : Base) (tmpl target : Img) (w : W)
    (requestedLevels : Z) :
  channels tmpl = 1 -> channels target = 1 -> 1 <= requestedLevels ->
  exists this',
    prepare this tmpl target w requestedLevels = Some this'
    /\ let mt := maxLevelsForImageSize (size tmpl) in
       let mg := maxLevelsForImageSize (size target) in
       numLevels this' = Z.max 1 (Z.min requestedLevels (Z.min mt mg))
       /\ 1 <= numLevels this' <= requestedLevels
       /\ (1 <= mt -> numLevels this' <= mt)
       /\ (1 <= mg -> numLevels this' <= mg)
       /\ (mt < 1 \/ mg < 1 -> numLevels this' = 1).
Proof.
  intros Ht Hg Hr. rewrite (prepare_ok _ _ _ _ _ Ht Hg). cbv zeta.
  eexists. split; [reflexivity|].
  unfold numLevels, sanitizeLevels. cbn. lia.
Qed.

Lemma pyrAt_slice (p : ImagePyramid Img) (levels l : Z) :
  0 <= l < levels -> pyrAt (slice p 0 levels) l = pyrAt p l.
Proof.
  intros Hl. unfold pyrAt, slice.
  replace (l <? 0) with false by lia.
  change (Z.to_nat 0) with O. cbn [skipn].
  rewrite nth_error_firstn.
  replace (Nat.ltb (Z.to_nat l) (Z.to_nat levels)) with true; [reflexivity|].
  symmetry. apply Nat.ltb_lt. lia.
Qed.

Lemma pyrNumLevels_slice (p : ImagePyramid Img) (levels : Z) :
  0 <= levels <= pyrNumLevels p -> pyrNumLevels (slice p 0 levels) = levels.
Proof.
  unfold pyrNumLevels, slice. intros Hl.
  change (Z.to_nat 0) with O. cbn [skipn]. rewrite length_firstn. lia.
Qed.

(** C6, as the code has it.  Given a target pyramid with at least one level
    and single-channel finest level, and a single-channel template, the second
    overload of [prepare] succeeds with the level count
    [levels = max(1, min(requested, maxLevelsForImageSize(template size),
    target.numLevels()))], which is at most the pyramid's.  When the pyramid
    has exactly [levels] levels it is kept as it is; when it has more, the
    engine holds [target.slice(0, levels)], of [levels] levels, and
    [targetImage()] at a level below [levels] is that level of the slice and
    of the pyramid passed in.  The count is the requested one when the request
    is at least 1 and no more than the template's size supports. *)
Theorem prepareWithPyramid_target (this : Base) (tmpl : Img)
    (target : ImagePyramid Img) (w : W) (requestedLevels : Z) :
  0 < pyrNumLevels target -> channels tmpl = 1 ->
  option_map channels (pyrAt target 0) = Some 1 ->
  exists this',
    prepareWithPyramid this tmpl target w requestedLevels = Some this'
    /\ let levels := Z.max 1 (Z.min requestedLevels
                                 (Z.min (maxLevelsForImageSize (size tmpl))
                                        (pyrNumLevels target))) in
       numLevels this' = levels
       /\ 1 <= levels <= pyrNumLevels target
       /\ pyrNumLevels (_targetPyramid this') = levels
       /\ (pyrNumLevels target = levels -> _targetPyramid this' = target)
       /\ (levels < pyrNumLevels target ->
           _targetPyramid this' = slice target 0 levels
           /\ (forall l, 0 <= l < levels ->
                 targetImage (setLevel this' l) = pyrAt (slice target 0 levels) l
                 /\ targetImage (setLevel this' l) = pyrAt target l)
           /\ (1 <= requestedLevels <= maxLevelsForImageSize (size tmpl) ->
               numLevels this' = requestedLevels)).
Proof.
  intros Hn Ht H0. rewrite (prepareWithPyramid_ok _ _ _ _ _ Hn Ht H0). cbv zeta.
  eexists. split; [reflexivity|].
  unfold numLevels, sanitizeLevels. cbn [withDerived setLevel withPyramids _levels
                                         _targetPyramid].
  set (levels := Z.max 1 (Z.min requestedLevels
                    (Z.min (maxLevelsForImageSize (size tmpl)) (pyrNumLevels target)))).
  assert (Hrange : 1 <= levels <= pyrNumLevels target) by (unfold levels; lia).
  split; [reflexivity|]. split; [exact Hrange|].
  destruct (pyrNumLevels target >? levels) eqn:E.
  - split; [apply pyrNumLevels_slice; lia|].
    split; [intros Heq; lia|]. intros _.
    split; [reflexivity|]. split.
    + intros l Hl.
      unfold targetImage, setLevel, withDerived, withPyramids, numLevels.
      cbn [_targetPyramid _level _levels].
      replace (Z.max 0 (Z.min l (levels - 1))) with l by lia.
      split; [reflexivity|]. apply pyrAt_slice. exact Hl.
    + intros Hreq. unfold levels. lia.
  - split; [lia|]. split; [reflexivity|]. intros Hlt. lia.
Qed.

(** *** [isInImage] *)

Lemma wrapInt_fits (z : Z) : fitsInt z -> wrapInt z = z.
Proof.
  unfold fitsInt, INT_MIN, INT_MAX, wrapInt. intros Hz.
  rewrite Z.mod_small by lia. lia.
Qed.

Lemma wrapInt_range (z : Z) : fitsInt (wrapInt z).
Proof.
  unfold fitsInt, INT_MIN, INT_MAX, wrapInt.
  pose proof (Z.mod_pos_bound (z + 2 ^ 31) (2 ^ 32) ltac:(lia)). lia.
Qed.

(** [isInImage] as the machine computes it. *)
Lemma isInImage_wrapped (p : PointType S) (imgSize : Size) (r : Z) :
  let x := floorInt (ssub (coord0 p) shalf) in
  let y := floorInt (ssub (coord1 p) shalf) in
  isInImage p imgSize r = true <->
  x >= r /\ y >= r
  /\ x < wrapInt (width imgSize - r) /\ y < wrapInt (height imgSize - r).
Proof.
  cbv zeta. unfold isInImage. cbv zeta.
  rewrite !andb_true_iff, !Z.geb_le, !Z.ltb_lt. lia.
Qed.

(** [isInImage] where the two subtractions do not overflow. *)
Lemma isInImage_iff (p : PointType S) (imgSize : Size) (r : Z) :
  noOverflow imgSize r ->
  let x := floorInt (ssub (coord0 p) shalf) in
  let y := floorInt (ssub (coord1 p) shalf) in
  (isInImage p imgSize r = true <->
     x >= r /\ y >= r /\ x < width imgSize - r /\ y < height imgSize - r)
  /\ (isInImage p imgSize r = false <->
      x < r \/ y < r \/ x >= width imgSize - r \/ y >= height imgSize - r).
Proof.
  intros [Hw Hh]. cbv zeta.
  pose proof (isInImage_wrapped p imgSize r) as Hiff. cbv zeta in Hiff.
  rewrite (wrapInt_fits _ Hw), (wrapInt_fits _ Hh) in Hiff.
  split; [exact Hiff|].
  destruct (isInImage p imgSize r).
  - split; [discriminate|]. intros Hout.
    destruct Hiff as [Hiff _]. specialize (Hiff eq_refl). lia.
  - split; [intros _|reflexivity].
    destruct (Z_lt_dec (floorInt (ssub (coord0 p) shalf)) r) as [H1|H1]; [tauto|].
    destruct (Z_lt_dec (floorInt (ssub (coord1 p) shalf)) r) as [H2|H2]; [tauto|].
    destruct (Z_ge_dec (floorInt (ssub (coord0 p) shalf)) (width imgSize - r))
      as [H3|H3]; [tauto|].
    destruct (Z_ge_dec (floorInt (ssub (coord1 p) shalf)) (height imgSize - r))
      as [H4|H4]; [tauto|].
    destruct Hiff as [_ Hiff]. assert (false = true) by (apply Hiff; lia).
    discriminate.
Qed.

(** *** Termination *)

(** X2. Both loops are bounded by their guards: the fuel [align] passes to
    each is enough, and any larger fuel gives the same state. *)
Theorem align_fuel_enough (this : Base) (w : W) (maxIterations : Z) (eps : S)
    (steps : option (list W)) (fuelLevels fuelIterations : nat) :
  (Z.to_nat (numLevels this) <= fuelLevels)%nat ->
  (Z.to_nat (Z.quot maxIterations (numLevels this)) <= fuelIterations)%nat ->
  levelsFrom fuelLevels (numLevels this - 1) (Z.quot maxIterations (numLevels this)) eps
             {| st_this := this; st_ws := scaled w (- numLevels this);
                st_steps := steps |}
  = align this w maxIterations eps steps
  /\ forall (lev : Z) (st : State),
       iterations fuelIterations lev 0 (Z.quot maxIterations (numLevels this)) eps
                  (enterLevel lev st)
       = alignLevel lev (Z.quot maxIterations (numLevels this)) eps st.
Proof.
  intros Hl Hi. split.
  - unfold align. cbv zeta. apply levelsFrom_fuel; lia.
  - intros lev st. unfold alignLevel. apply iterations_fuel; lia.
Qed.

(** *** What [align] leaves alone *)

Lemma sameConfiguration_refl (a : Base) : sameConfiguration a a.
Proof. repeat split. Qed.

Lemma sameConfiguration_trans (a b c : Base) :
  sameConfiguration a b -> sameConfiguration b c -> sameConfiguration a c.
Proof.
  unfold sameConfiguration. intros (H1 & H2 & H3) (H4 & H5 & H6).
  repeat split; congruence.
Qed.

Lemma alignIteration_frame (lev iter : Z) (eps : S) (st : State) :
  sameConfiguration (st_this (outcomeState (alignIteration lev iter eps st))) (st_this st)
  /\ level (st_this (outcomeState (alignIteration lev iter eps st))) = level (st_this st).
Proof.
  rewrite alignIteration_unfold. cbv zeta.
  destruct (_ && _ && _); repeat split.
Qed.

Lemma iterations_frame (fuel : nat) (lev iter ipl : Z) (eps : S) (st : State) :
  sameConfiguration (st_this (iterations fuel lev iter ipl eps st)) (st_this st)
  /\ level (st_this (iterations fuel lev iter ipl eps st)) = level (st_this st).
Proof.
  revert iter st.
  induction fuel as [|fuel IH]; intros iter st; cbn [iterations];
    [split; [apply sameConfiguration_refl|reflexivity]|].
  destruct (iter <? ipl); [|split; [apply sameConfiguration_refl|reflexivity]].
  pose proof (alignIteration_frame lev iter eps st) as [Hc Hl].
  destruct (alignIteration lev iter eps st) as [st'|st']; cbn [outcomeState] in Hc, Hl.
  - destruct (IH (iter + 1) st') as [Hc' Hl'].
    split; [eapply sameConfiguration_trans; eassumption|congruence].
  - split; assumption.
Qed.

Lemma alignLevel_frame (lev ipl : Z) (eps : S) (st : State) :
  sameConfiguration (st_this (alignLevel lev ipl eps st)) (st_this st)
  /\ level (st_this (alignLevel lev ipl eps st)) =
     Z.max 0 (Z.min lev (numLevels (st_this st) - 1)).
Proof.
  unfold alignLevel.
  destruct (iterations_frame (Z.to_nat ipl) lev 0 ipl eps (enterLevel lev st)) as [Hc Hl].
  split.
  - eapply sameConfiguration_trans; [exact Hc|]. repeat split.
  - rewrite Hl. reflexivity.
Qed.

Lemma levelsFrom_frame (fuel : nat) (lev ipl : Z) (eps : S) (st : State) :
  sameConfiguration (st_this (levelsFrom fuel lev ipl eps st)) (st_this st).
Proof.
  revert lev st.
  induction fuel as [|fuel IH]; intros lev st; cbn [levelsFrom];
    [apply sameConfiguration_refl|].
  destruct (lev >=? 0); [|apply sameConfiguration_refl].
  eapply sameConfiguration_trans; [apply IH|]. apply alignLevel_frame.
Qed.

Lemma levelsFrom_level (fuel : nat) (lev ipl : Z) (eps : S) (st : State) :
  0 <= lev -> (Z.to_nat (lev + 1) <= fuel)%nat -> 1 <= numLevels (st_this st) ->
  level (st_this (levelsFrom fuel lev ipl eps st)) = 0.
Proof.
  revert lev st.
  induction fuel as [|fuel IH]; intros lev st Hl Hf Hn; [lia|].
  cbn [levelsFrom]. replace (lev >=? 0) with true by lia.
  destruct (alignLevel_frame lev ipl eps st) as [(_ & _ & Hc) Hlev].
  destruct (Z.eq_dec lev 0) as [->|Hnz].
  - destruct fuel as [|fuel]; cbn [levelsFrom];
      [|change (0 - 1 >=? 0) with false; cbv iota]; rewrite Hlev; lia.
  - apply IH; try lia. unfold numLevels in *. lia.
Qed.

(** X3. The pyramids and the level count are the same after [align] as
    before, and with at least one level the active level is 0 afterwards. *)
Theorem align_frame (this : Base) (w : W) (maxIterations : Z) (eps : S)
    (steps : option (list W)) :
  templateImagePyramid (st_this (align this w maxIterations eps steps)) =
    templateImagePyramid this
  /\ targetImagePyramid (st_this (align this w maxIterations eps steps)) =
     targetImagePyramid this
  /\ numLevels (st_this (align this w maxIterations eps steps)) = numLevels this
  /\ (1 <= numLevels this ->
      level (st_this (align this w maxIterations eps steps)) = 0).
Proof.
  unfold align. cbv zeta.
  destruct (levelsFrom_frame (Z.to_nat (numLevels this)) (numLevels this - 1)
              (Z.quot maxIterations (numLevels this)) eps
              {| st_this := this; st_ws := scaled w (- numLevels this);
                 st_steps := steps |}) as (H1 & H2 & H3).
  split; [exact H1|]. split; [exact H2|]. split; [exact H3|].
  intros Hn. apply levelsFrom_level; cbn [st_this]; lia.
Qed.

(** *** The first iteration of a level *)

(** X4. On iteration 0 the length of the update is not looked at: whether
    the step is accepted does not depend on [eps].  On a later iteration an
    accepted step has [norm(delta) >= eps]. *)
Theorem alignIteration_first_exempt (lev iter : Z) (eps eps' : S) (st : State) :
  isAccepted (alignIteration lev 0 eps st) = isAccepted (alignIteration lev 0 eps' st)
  /\ (isAccepted (alignIteration lev 0 eps st) = true <->
      0 < numConstraints (stepOf st)
      /\ sge (ssub (lastError (st_this st))
                   (sdiv (sumErrors (stepOf st)) (ofInt (numConstraints (stepOf st)))))
             (ofInt 0) = true)
  /\ (iter <> 0 -> isAccepted (alignIteration lev iter eps st) = true ->
      sge (norm (delta (stepOf st))) eps = true).
Proof.
  split; [|split].
  - rewrite !alignIteration_unfold. cbv zeta. cbn [Z.eqb orb].
    destruct (_ && _); reflexivity.
  - rewrite alignIteration_accepted_iff. cbv zeta. tauto.
  - intros Hi Hacc. apply alignIteration_accepted_iff in Hacc.
    cbv zeta in Hacc. destruct Hacc as (_ & _ & [H|H]); [contradiction|exact H].
Qed.

(** *** A budget below the level count *)

Lemma levelsFrom_no_budget (fuel : nat) (lev ipl : Z) (eps : S) (st : State) :
  ipl <= 0 ->
  allAttempts (levelsTrace fuel lev ipl eps st) = []
  /\ st_steps (levelsFrom fuel lev ipl eps st) = st_steps st
  /\ (0 <= lev -> (Z.to_nat (lev + 1) <= fuel)%nat ->
      st_ws (levelsFrom fuel lev ipl eps st) =
        Nat.iter (Z.to_nat (lev + 1)) (fun ws => scaled ws 1) (st_ws st)
      /\ lastError (st_this (levelsFrom fuel lev ipl eps st)) = smax).
Proof.
  intros Hipl. revert lev st.
  induction fuel as [|fuel IH]; intros lev st; cbn [levelsFrom levelsTrace].
  - repeat split; try reflexivity; lia.
  - destruct (lev >=? 0) eqn:E; [|repeat split; try reflexivity; lia].
    assert (Hlev : alignLevel lev ipl eps st = enterLevel lev st).
    { unfold alignLevel. replace (Z.to_nat ipl) with O by lia. reflexivity. }
    rewrite Hlev.
    destruct (IH (lev - 1) (enterLevel lev st)) as (Ha & Hs & Hw).
    split; [|split].
    + unfold allAttempts in *. cbn [flat_map visitLevel lv_attempts].
      replace (Z.to_nat ipl) with O by lia. cbn [iterationsTrace app]. exact Ha.
    + rewrite Hs. reflexivity.
    + intros Hl Hf.
      destruct (Z.eq_dec lev 0) as [->|Hnz].
      * destruct fuel; cbn [levelsFrom];
          [|change (0 - 1 >=? 0) with false; cbv iota]; split; reflexivity.
      * destruct (Hw ltac:(lia) ltac:(lia)) as [Hw1 Hw2].
        split; [|exact Hw2].
        rewrite Hw1. cbn [enterLevel st_ws].
        replace (Z.to_nat (lev + 1)) with (Datatypes.S (Z.to_nat (lev - 1 + 1))) by lia.
        rewrite Nat.iter_succ_r. reflexivity.
Qed.

(** X5. With fewer iterations than levels the budget of every level is 0: no
    step is attempted, the warp returned is [w.scaled(-n)] rescaled [n] times
    by [scaled(1)], the steps container is untouched and [lastError()] is the
    sentinel. *)
Theorem align_budget_zero (this : Base) (w : W) (maxIterations : Z) (eps : S)
    (steps : option (list W)) :
  1 <= numLevels this -> 0 <= maxIterations < numLevels this ->
  Z.quot maxIterations (numLevels this) = 0
  /\ allAttempts (alignTrace this w maxIterations eps steps) = []
  /\ st_ws (align this w maxIterations eps steps) =
     Nat.iter (Z.to_nat (numLevels this)) (fun ws => scaled ws 1)
              (scaled w (- numLevels this))
  /\ st_steps (align this w maxIterations eps steps) = steps
  /\ lastError (st_this (align this w maxIterations eps steps)) = smax.
Proof.
  intros Hn Hm.
  assert (Hq : Z.quot maxIterations (numLevels this) = 0) by (apply Z.quot_small; lia).
  split; [exact Hq|].
  unfold align, alignTrace. cbv zeta. rewrite Hq.
  destruct (levelsFrom_no_budget (Z.to_nat (numLevels this)) (numLevels this - 1) 0 eps
              {| st_this := this; st_ws := scaled w (- numLevels this);
                 st_steps := steps |} ltac:(lia)) as (Ha & Hs & Hw).
  destruct (Hw ltac:(lia) ltac:(lia)) as [Hw1 Hw2].
  split; [exact Ha|]. split.
  - rewrite Hw1. cbn [st_ws].
    replace (numLevels this - 1 + 1) with (numLevels this) by lia. reflexivity.
  - split; [exact Hs|exact Hw2].
Qed.

(** *** Failed assertions *)

(** X1. [prepare] throws exactly when one of its [CV_Assert]s fails: an image
    that is not single-channel, or, for the second overload, an empty target
    pyramid or a finest target level that is not single-channel. *)
Theorem prepare_asserts (this : Base) (tmpl target : Img)
    (targetPyramid : ImagePyramid Img) (w : W) (pyramidLevels : Z) :
  (prepare this tmpl target w pyramidLevels = None <->
     channels tmpl <> 1 \/ channels target <> 1)
  /\ (prepareWithPyramid this tmpl targetPyramid w pyramidLevels = None <->
      pyrNumLevels targetPyramid <= 0 \/ channels tmpl <> 1
      \/ option_map channels (pyrAt targetPyramid 0) <> Some 1).
Proof.
  split.
  - destruct (prepare this tmpl target w pyramidLevels) eqn:E.
    + apply prepare_inv in E as [Ht Hg].
      split; [discriminate|]. intros [H|H]; contradiction.
    + split; [intros _|reflexivity].
      destruct (Z.eq_dec (channels tmpl) 1) as [Ht|Ht]; [|left; exact Ht].
      destruct (Z.eq_dec (channels target) 1) as [Hg|Hg]; [|right; exact Hg].
      rewrite (prepare_ok _ _ _ _ _ Ht Hg) in E. discriminate.
  - destruct (prepareWithPyramid this tmpl targetPyramid w pyramidLevels) eqn:E.
    + apply prepareWithPyramid_inv in E as (Hn & Ht & H0).
      split; [discriminate|]. intros [H|[H|H]]; [lia|contradiction|contradiction].
    + split; [intros _|reflexivity].
      destruct (Z.le_gt_cases (pyrNumLevels targetPyramid) 0) as [Hn|Hn];
        [left; exact Hn|].
      destruct (Z.eq_dec (channels tmpl) 1) as [Ht|Ht]; [|right; left; exact Ht].
      right; right. intros H0.
      rewrite (prepareWithPyramid_ok _ _ _ _ _ Hn Ht H0) in E. discriminate.
Qed.

(** *** What [lastError()] reports after [align] *)

Lemma alignIteration_Accepted (lev iter : Z) (eps : S) (st st' : State) :
  alignIteration lev iter eps st = Accepted st' ->
  lastError (st_this st') =
    sdiv (sumErrors (stepOf st)) (ofInt (numConstraints (stepOf st)))
  /\ st_ws st' = fst (applyStep (afterAlignImpl st) (st_ws st) (stepOf st))
  /\ st_steps st' = option_map (fun v => v ++ [scaled (st_ws st') lev]) (st_steps st).
Proof.
  rewrite alignIteration_unfold. cbv zeta.
  destruct (_ && _ && _); [|discriminate].
  intros H. injection H as <-. repeat split.
Qed.

Lemma alignIteration_Rejected (lev iter : Z) (eps : S) (st st' : State) :
  alignIteration lev iter eps st = Rejected st' ->
  st' = {| st_this := afterAlignImpl st; st_ws := st_ws st; st_steps := st_steps st |}.
Proof.
  rewrite alignIteration_unfold. cbv zeta.
  destruct (_ && _ && _); [discriminate|].
  intros H. injection H as <-. reflexivity.
Qed.

Lemma iterations_lastError (fuel : nat) (lev iter ipl : Z) (eps : S) (st : State) :
  lastError (st_this (iterations fuel lev iter ipl eps st)) =
  match lastAccepted (iterationsTrace fuel lev iter ipl eps st) with
  | Some a => at_newError a
  | None => lastError (st_this st)
  end.
Proof.
  revert iter st.
  induction fuel as [|fuel IH]; intros iter st; cbn [iterations iterationsTrace];
    [reflexivity|].
  destruct (iter <? ipl); [|reflexivity].
  cbn [lastAccepted at_outcome].
  destruct (alignIteration lev iter eps st) as [st'|st'] eqn:E; cbn [isAccepted].
  - rewrite IH.
    destruct (lastAccepted (iterationsTrace fuel lev (iter + 1) ipl eps st'));
      [reflexivity|].
    apply alignIteration_Accepted in E as (He & _). exact He.
  - cbn [lastAccepted]. apply alignIteration_Rejected in E. subst st'. reflexivity.
Qed.

Lemma levelsTrace_last (fuel : nat) (lev ipl : Z) (eps : S) (st : State) :
  0 <= lev -> (Z.to_nat (lev + 1) <= fuel)%nat ->
  exists t1 v, levelsTrace fuel lev ipl eps st = t1 ++ [v] /\ lv_level v = 0.
Proof.
  intros Hl Hf.
  destruct (levelsTrace fuel lev ipl eps st) as [|v0 t0] eqn:E.
  - destruct fuel as [|fuel]; [lia|]. cbn [levelsTrace] in E.
    replace (lev >=? 0) with true in E by lia. discriminate.
  - assert (Hne : v0 :: t0 <> []) by discriminate.
    destruct (exists_last Hne) as (t1 & v & Heq).
    exists t1, v. split; [exact Heq|].
    rewrite Heq in E.
    exact (levelsTrace_next _ _ _ _ _ t1 [] v Hf E).
Qed.

(** X6. After [align] on an engine with at least one level, [lastError()] is
    the mean error of the last step accepted on level 0, the last level
    visited; when no step was accepted there it is the sentinel
    [numeric_limits<ScalarType>::max()], whatever was accepted on the coarser
    levels. *)
Theorem align_lastError (this : Base) (w : W) (maxIterations : Z) (eps : S)
    (steps : option (list W)) :
  1 <= numLevels this ->
  exists t1 v,
    alignTrace this w maxIterations eps steps = t1 ++ [v]
    /\ lv_level v = 0
    /\ lastError (st_this (align this w maxIterations eps steps)) =
       match lastAccepted (lv_attempts v) with
       | Some a => at_newError a
       | None => smax
       end.
Proof.
  intros Hn.
  destruct (levelsTrace_last (Z.to_nat (numLevels this)) (numLevels this - 1)
              (Z.quot maxIterations (numLevels this)) eps
              {| st_this := this; st_ws := scaled w (- numLevels this);
                 st_steps := steps |} ltac:(lia) ltac:(lia)) as (t1 & v & Ht & Hzero).
  exists t1, v. split; [exact Ht|]. split; [exact Hzero|].
  assert (Hv : In v (alignTrace this w maxIterations eps steps)).
  { unfold alignTrace. rewrite Ht. apply in_or_app. right. left. reflexivity. }
  pose proof (levelsTrace_fields _ _ _ _ _ _ Hv) as (Hentry & Hatt & Hexit).
  unfold align. cbv zeta. rewrite levelsFrom_lastExit. unfold lastExit.
  rewrite Ht, last_map_app, Hexit, iterations_lastError, <- Hatt.
  destruct (lastAccepted (lv_attempts v)); [reflexivity|].
  rewrite Hentry. reflexivity.
Qed.

(** *** The steps container *)

Lemma pushedBy_accepted (l : list (@Attempt S W Img D)) :
  flat_map pushedBy l =
  map (fun a => scaled (st_ws (at_after a)) (at_level a)) (acceptedAttempts l).
Proof.
  unfold acceptedAttempts.
  induction l as [|a l IH]; [reflexivity|].
  cbn [flat_map filter]. rewrite IH. unfold pushedBy at 1.
  destruct (at_outcome a) as [st|st] eqn:E; cbn [isAccepted map app]; [|reflexivity].
  f_equal. unfold at_after. rewrite E. reflexivity.
Qed.

Lemma acceptedAttempts_length (l : list (@Attempt S W Img D)) :
  (length (acceptedAttempts l) <= length l)%nat.
Proof. unfold acceptedAttempts. apply filter_length_le. Qed.

(** X7. With a steps container, [align] appends to it one warp for each
    accepted step, in the order accepted, and leaves what it held in front;
    for a non-negative [maxIterations] on an engine with at least one level it
    appends at most [maxIterations] warps.  Without a container there is none
    afterwards. *)
Theorem align_steps_appended (this : Base) (w : W) (maxIterations : Z) (eps : S)
    (held : list W) :
  1 <= numLevels this -> 0 <= maxIterations ->
  let accepted :=
    acceptedAttempts (allAttempts (alignTrace this w maxIterations eps (Some held))) in
  st_steps (align this w maxIterations eps (Some held)) =
    Some (held ++ map (fun a => scaled (st_ws (at_after a)) (at_level a)) accepted)
  /\ Z.of_nat (length accepted) <= maxIterations
  /\ st_steps (align this w maxIterations eps None) = None.
Proof.
  intros Hn Hm accepted.
  split; [|split].
  - unfold align, accepted, alignTrace. cbv zeta.
    rewrite levelsFrom_steps, pushedBy_accepted. reflexivity.
  - set (t := alignTrace this w maxIterations eps (Some held)).
    set (ipl := Z.quot maxIterations (numLevels this)).
    assert (Hipl : 0 <= ipl) by (apply Z.quot_pos; lia).
    assert (Hbound : forall v, In v t -> Z.of_nat (length (lv_attempts v)) <= ipl).
    { intros v Hv.
      pose proof (levelsTrace_fields _ _ ipl _ _ _ Hv) as (_ & Hatt & _).
      rewrite Hatt.
      pose proof (iterationsTrace_length (Z.to_nat ipl) (lv_level v) 0 ipl eps
                    (lv_entry v)) as [_ H].
      lia. }
    pose proof (allAttempts_length_le t ipl Hbound) as Hl.
    pose proof (alignTrace_length this w maxIterations eps (Some held)) as Ht.
    fold t in Ht. rewrite Ht in Hl.
    pose proof (acceptedAttempts_length (allAttempts t)) as Ha.
    pose proof (Z.quot_rem' maxIterations (numLevels this)) as Hqr. fold ipl in Hqr.
    pose proof (Z.rem_bound_pos maxIterations (numLevels this) Hm ltac:(lia)) as Hr.
    unfold accepted. fold t. nia.
  - unfold align. cbv zeta. rewrite levelsFrom_steps. reflexivity.
Qed.

Lemma alignIteration_sameButSteps (lev iter : Z) (eps : S) (st st' : State) :
  sameButSteps st st' ->
  isAccepted (alignIteration lev iter eps st) = isAccepted (alignIteration lev iter eps st')
  /\ sameButSteps (outcomeState (alignIteration lev iter eps st))
                  (outcomeState (alignIteration lev iter eps st')).
Proof.
  intros [Hthis Hws]. rewrite !alignIteration_unfold. cbv zeta.
  unfold stepOf, afterAlignImpl. rewrite Hthis, Hws.
  destruct (_ && _ && _); split; try reflexivity; split; reflexivity.
Qed.

Lemma iterations_sameButSteps (fuel : nat) (lev iter ipl : Z) (eps : S)
    (st st' : State) :
  sameButSteps st st' ->
  sameButSteps (iterations fuel lev iter ipl eps st) (iterations fuel lev iter ipl eps st').
Proof.
  revert iter st st'.
  induction fuel as [|fuel IH]; intros iter st st' Hs; cbn [iterations]; [exact Hs|].
  destruct (iter <? ipl); [|exact Hs].
  destruct (alignIteration_sameButSteps lev iter eps st st' Hs) as [Hacc Hout].
  destruct (alignIteration lev iter eps st), (alignIteration lev iter eps st');
    cbn [isAccepted outcomeState] in Hacc, Hout; try discriminate.
  - apply IH. exact Hout.
  - exact Hout.
Qed.

Lemma levelsFrom_sameButSteps (fuel : nat) (lev ipl : Z) (eps : S) (st st' : State) :
  sameButSteps st st' ->
  sameButSteps (levelsFrom fuel lev ipl eps st) (levelsFrom fuel lev ipl eps st').
Proof.
  revert lev st st'.
  induction fuel as [|fuel IH]; intros lev st st' Hs; cbn [levelsFrom]; [exact Hs|].
  destruct (lev >=? 0); [|exact Hs].
  apply IH. unfold alignLevel. apply iterations_sameButSteps.
  destruct Hs as [Hthis Hws]. split; cbn [enterLevel st_this st_ws]; congruence.
Qed.

(** X8. The steps container has no part in the alignment: the warp written
    back and the engine are the same whether [steps] is null, empty or holds
    anything. *)
Theorem align_ignores_steps (this : Base) (w : W) (maxIterations : Z) (eps : S)
    (steps steps' : option (list W)) :
  st_ws (align this w maxIterations eps steps) =
    st_ws (align this w maxIterations eps steps')
  /\ st_this (align this w maxIterations eps steps) =
     st_this (align this w maxIterations eps steps').
Proof.
  unfold align. cbv zeta.
  destruct (levelsFrom_sameButSteps (Z.to_nat (numLevels this)) (numLevels this - 1)
              (Z.quot maxIterations (numLevels this)) eps
              {| st_this := this; st_ws := scaled w (- numLevels this);
                 st_steps := steps |}
              {| st_this := this; st_ws := scaled w (- numLevels this);
                 st_steps := steps' |}) as [Hthis Hws]; [split; reflexivity|].
  split; assumption.
Qed.

(** *** The margin [isInImage] guarantees *)

(** X9. Where the subtractions [width - r] and [height - r] stay within
    [int]: a point [isInImage] accepts with border [r] lies in an image wider
    and higher than [2r]; for [r >= 0] its pixel [(x, y)] is a pixel of the
    image; and it is accepted with every smaller border [r'] for which the
    subtractions stay within [int] as well. *)
Theorem isInImage_margin (p : PointType S) (imgSize : Size) (r r' : Z) :
  intInputs p imgSize r -> noOverflow imgSize r ->
  isInImage p imgSize r = true ->
  let x := floorInt (ssub (coord0 p) shalf) in
  let y := floorInt (ssub (coord1 p) shalf) in
  2 * r < width imgSize /\ 2 * r < height imgSize
  /\ (0 <= r -> 0 <= x < width imgSize /\ 0 <= y < height imgSize)
  /\ (r' <= r -> fitsInt r' -> noOverflow imgSize r' ->
      isInImage p imgSize r' = true).
Proof.
  intros _ Hno Hin x y.
  destruct (isInImage_iff p imgSize r Hno) as [Htrue _]. cbv zeta in Htrue.
  apply Htrue in Hin. fold x y in Hin. destruct Hin as (H1 & H2 & H3 & H4).
  split; [lia|]. split; [lia|]. split; [lia|].
  intros Hr _ Hno'.
  destruct (isInImage_iff p imgSize r' Hno') as [Htrue' _]. cbv zeta in Htrue'.
  apply Htrue'. fold x y. lia.
Qed.

(** *** The active level during [align] *)

Lemma iterationsTrace_frame (fuel : nat) (lev iter ipl : Z) (eps : S) (st : State)
    (a : Attempt) :
  In a (iterationsTrace fuel lev iter ipl eps st) ->
  sameConfiguration (st_this (at_before a)) (st_this st)
  /\ level (st_this (at_before a)) = level (st_this st).
Proof.
  revert iter st.
  induction fuel as [|fuel IH]; intros iter st; cbn [iterationsTrace]; [intros []|].
  destruct (iter <? ipl); [|intros []].
  intros [<-|Hin]; [split; [apply sameConfiguration_refl|reflexivity]|].
  pose proof (alignIteration_frame lev iter eps st) as [Hc Hl].
  destruct (alignIteration lev iter eps st) as [st'|st']; [|destruct Hin].
  cbn [outcomeState] in Hc, Hl. apply IH in Hin as [Hc' Hl'].
  split; [eapply sameConfiguration_trans; eassumption|congruence].
Qed.

Lemma levelsTrace_frame (fuel : nat) (lev ipl : Z) (eps : S) (st : State)
    (v : LevelVisit) :
  In v (levelsTrace fuel lev ipl eps st) ->
  sameConfiguration (st_this (lv_before v)) (st_this st).
Proof.
  revert lev st.
  induction fuel as [|fuel IH]; intros lev st; cbn [levelsTrace]; [intros []|].
  destruct (lev >=? 0); [|intros []].
  intros [<-|Hin]; [apply sameConfiguration_refl|].
  apply IH in Hin. eapply sameConfiguration_trans; [exact Hin|].
  apply alignLevel_frame.
Qed.

Lemma pyrAt_defined (p : ImagePyramid Img) (i : Z) :
  0 <= i < pyrNumLevels p -> exists img, pyrAt p i = Some img.
Proof.
  unfold pyrAt, pyrNumLevels. intros Hi. replace (i <? 0) with false by lia.
  destruct (nth_error p (Z.to_nat i)) as [img|] eqn:E; [exists img; reflexivity|].
  apply nth_error_None in E. lia.
Qed.

(** X10. Whenever [align] calls [alignImpl] and [applyStep], the active level
    is the level of the outer loop and lies in [0, numLevels()-1], and
    [templateImage()] and [targetImage()] are that level of the pyramids the
    engine held when [align] was called; they exist when those pyramids have
    [numLevels()] levels. *)
Theorem align_active_level (this : Base) (w : W) (maxIterations : Z) (eps : S)
    (steps : option (list W)) (a : Attempt) :
  In a (allAttempts (alignTrace this w maxIterations eps steps)) ->
  level (st_this (at_before a)) = at_level a
  /\ level (afterAlignImpl (at_before a)) = at_level a
  /\ 0 <= at_level a < numLevels this
  /\ levelInRange (st_this (at_before a))
  /\ templateImage (st_this (at_before a)) =
     pyrAt (templateImagePyramid this) (at_level a)
  /\ targetImage (st_this (at_before a)) =
     pyrAt (targetImagePyramid this) (at_level a)
  /\ (pyrNumLevels (templateImagePyramid this) = numLevels this ->
      exists img, templateImage (st_this (at_before a)) = Some img)
  /\ (pyrNumLevels (targetImagePyramid this) = numLevels this ->
      exists img, targetImage (st_this (at_before a)) = Some img).
Proof.
  intros Ha. apply allAttempts_In in Ha as (v & Hv & Ha).
  pose proof (levelsTrace_In _ _ _ _ _ _ Hv) as [_ Hrange].
  pose proof (levelsTrace_fields _ _ _ _ _ _ Hv) as (Hentry & Hatt & _).
  pose proof (levelsTrace_frame _ _ _ _ _ _ Hv) as (Ht & Hg & Hn).
  pose proof (levelsTrace_attempt _ _ _ _ _ _ _ Hv Ha) as (Hlev & _ & _).
  rewrite Hatt in Ha. apply iterationsTrace_frame in Ha as ((Ht' & Hg' & Hn') & Hl').
  cbn [st_this] in Ht, Hg, Hn.
  rewrite Hentry in Ht', Hg', Hn', Hl'. cbn [enterLevel st_this] in Ht', Hg', Hn', Hl'.
  rewrite setLevel_level in Hl'. unfold numLevels in Hl', Hrange |- *.
  cbn [setLevel _templatePyramid _targetPyramid _levels] in Ht', Hg', Hn'.
  assert (Hactive : level (st_this (at_before a)) = at_level a) by lia.
  assert (Hin : 0 <= at_level a < _levels this) by lia.
  assert (Htmpl : templateImage (st_this (at_before a)) =
                  pyrAt (templateImagePyramid this) (at_level a)).
  { unfold templateImage, templateImagePyramid. fold (level (st_this (at_before a))).
    rewrite Hactive. congruence. }
  assert (Htgt : targetImage (st_this (at_before a)) =
                 pyrAt (targetImagePyramid this) (at_level a)).
  { unfold targetImage, targetImagePyramid. fold (level (st_this (at_before a))).
    rewrite Hactive. congruence. }
  split; [exact Hactive|]. split; [exact Hactive|]. split; [exact Hin|].
  split; [unfold levelInRange, numLevels; lia|].
  split; [exact Htmpl|]. split; [exact Htgt|]. split.
  - intros Hlen. rewrite Htmpl. apply pyrAt_defined. unfold numLevels in Hlen. lia.
  - intros Hlen. rewrite Htgt. apply pyrAt_defined. unfold numLevels in Hlen. lia.
Qed.

(** X11. After the second overload of [prepare], whatever level [setLevel] is
    asked for, [targetImage()] exists and is the level of the pyramid passed
    in that [setLevel] stored: the engine never reads past the levels it
    kept. *)
Theorem prepareWithPyramid_targetImage (this this' : Base) (tmpl : Img)
    (target : ImagePyramid Img) (w : W) (pyramidLevels requested : Z) :
  prepareWithPyramid this tmpl target w pyramidLevels = Some this' ->
  levelInRange (setLevel this' requested)
  /\ level (setLevel this' requested) < pyrNumLevels target
  /\ targetImage (setLevel this' requested) =
     pyrAt target (level (setLevel this' requested))
  /\ exists img, targetImage (setLevel this' requested) = Some img.
Proof.
  intros Hp.
  pose proof (prepareWithPyramid_inv _ _ _ _ _ _ Hp) as (Hn & Ht & H0).
  rewrite (prepareWithPyramid_ok _ _ _ _ _ Hn Ht H0) in Hp. cbv zeta in Hp.
  injection Hp as <-.
  unfold levelInRange, targetImage, level, setLevel, withDerived, withPyramids,
    sanitizeLevels, numLevels.
  cbn [_targetPyramid _level _levels].
  set (levels := Z.max 1 (Z.min pyramidLevels
                   (Z.min (maxLevelsForImageSize (size tmpl)) (pyrNumLevels target)))).
  set (l := Z.max 0 (Z.min requested (levels - 1))).
  assert (Hlevels : 1 <= levels <= pyrNumLevels target) by (unfold levels; lia).
  assert (Hl : 0 <= l < levels) by (unfold l; lia).
  split; [exact Hl|]. split; [lia|].
  assert (Heq : pyrAt (if pyrNumLevels target >? levels then slice target 0 levels
                       else target) l = pyrAt target l).
  { destruct (pyrNumLevels target >? levels); [apply pyrAt_slice; exact Hl|reflexivity]. }
  split; [exact Heq|]. rewrite Heq. apply pyrAt_defined. lia.
Qed.

(** *** When [eps] plays no part *)

Lemma alignIteration_first_eps (lev : Z) (eps eps' : S) (st : State) :
  alignIteration lev 0 eps st = alignIteration lev 0 eps' st.
Proof.
  rewrite !alignIteration_unfold. cbv zeta. cbn [Z.eqb orb]. reflexivity.
Qed.

Lemma alignLevel_budget_one (lev ipl : Z) (eps eps' : S) (st : State) :
  ipl <= 1 -> alignLevel lev ipl eps st = alignLevel lev ipl eps' st.
Proof.
  intros Hipl. unfold alignLevel.
  destruct (Z.to_nat ipl) as [|[|k]] eqn:E; [reflexivity| |lia].
  cbn [iterations]. rewrite (alignIteration_first_eps lev eps eps').
  reflexivity.
Qed.

Lemma levelsFrom_budget_one (fuel : nat) (lev ipl : Z) (eps eps' : S) (st : State) :
  ipl <= 1 -> levelsFrom fuel lev ipl eps st = levelsFrom fuel lev ipl eps' st.
Proof.
  intros Hipl. revert lev st.
  induction fuel as [|fuel IH]; intros lev st; cbn [levelsFrom]; [reflexivity|].
  destruct (lev >=? 0); [|reflexivity].
  rewrite (alignLevel_budget_one lev ipl eps eps' st Hipl). apply IH.
Qed.

(** X12. With fewer than two iterations per level, that is
    [maxIterations < 2 * numLevels()], every step attempted is the first of
    its level and [eps] is never looked at: [align] gives the same result for
    every [eps]. *)
Theorem align_eps_unused (this : Base) (w : W) (maxIterations : Z) (eps eps' : S)
    (steps : option (list W)) :
  1 <= numLevels this -> maxIterations < 2 * numLevels this ->
  align this w maxIterations eps steps = align this w maxIterations eps' steps.
Proof.
  intros Hn Hm. unfold align. cbv zeta.
  apply levelsFrom_budget_one.
  destruct (Z.le_gt_cases 0 maxIterations) as [Hpos|Hneg].
  - assert (Z.quot maxIterations (numLevels this) < 2)
      by (apply Z.quot_lt_upper_bound; lia).
    lia.
  - assert (Z.quot maxIterations (numLevels this) <= Z.quot 0 (numLevels this))
      by (apply Z.quot_le_mono; lia).
    rewrite Z.quot_0_l in H by lia. lia.
Qed.

(** *** The level count at the edges of a request *)

(** X13. Whatever is requested, both overloads of [prepare] leave at least
    one level and no more than [max(1, requested)]: a request of one, zero or
    a negative number of levels gives one level; a larger request never gives
    fewer levels than a smaller one; and every request at or above what the
    images (for the second overload: the template and the supplied pyramid)
    allow gives the same count. *)
Theorem prepare_levels_edges (this : Base) (tmpl target : Img)
    (targetPyramid : ImagePyramid Img) (w : W) (n n' : Z) :
  (channels tmpl = 1 -> channels target = 1 ->
   let cap := Z.min (maxLevelsForImageSize (size tmpl))
                    (maxLevelsForImageSize (size target)) in
   exists this1 this2,
     prepare this tmpl target w n = Some this1
     /\ prepare this tmpl target w n' = Some this2
     /\ 1 <= numLevels this1 <= Z.max 1 n
     /\ (n <= 1 -> numLevels this1 = 1)
     /\ (n <= n' -> numLevels this1 <= numLevels this2)
     /\ (cap <= n -> cap <= n' -> numLevels this1 = numLevels this2))
  /\ (0 < pyrNumLevels targetPyramid -> channels tmpl = 1 ->
      option_map channels (pyrAt targetPyramid 0) = Some 1 ->
      let cap := Z.min (maxLevelsForImageSize (size tmpl))
                       (pyrNumLevels targetPyramid) in
      exists this1 this2,
        prepareWithPyramid this tmpl targetPyramid w n = Some this1
        /\ prepareWithPyramid this tmpl targetPyramid w n' = Some this2
        /\ 1 <= numLevels this1 <= Z.max 1 n
        /\ (n <= 1 -> numLevels this1 = 1)
        /\ (n <= n' -> numLevels this1 <= numLevels this2)
        /\ (cap <= n -> cap <= n' -> numLevels this1 = numLevels this2)).
Proof.
  split.
  - intros Ht Hg cap.
    rewrite !(prepare_ok _ _ _ _ _ Ht Hg). cbv zeta.
    eexists. eexists. split; [reflexivity|]. split; [reflexivity|].
    unfold numLevels, sanitizeLevels. cbn [withDerived setLevel withPyramids _levels].
    fold cap. lia.
  - intros Hn Ht H0 cap.
    rewrite !(prepareWithPyramid_ok _ _ _ _ _ Hn Ht H0). cbv zeta.
    eexists. eexists. split; [reflexivity|]. split; [reflexivity|].
    unfold numLevels, sanitizeLevels. cbn [withDerived setLevel withPyramids _levels].
    fold cap. lia.
Qed.

(** *** Preparing an engine again *)

(** X14. [prepare] overwrites every field of the base: the pyramids, the
    level count, the active level and the error of the engine it is called on
    have no part in the result, which depends on that engine only through the
    fields of the derived class. *)
Theorem prepare_forgets (this this' : Base) (tmpl target : Img)
    (targetPyramid : ImagePyramid Img) (w : W) (pyramidLevels : Z) :
  derived this = derived this' ->
  prepare this tmpl target w pyramidLevels = prepare this' tmpl target w pyramidLevels
  /\ prepareWithPyramid this tmpl targetPyramid w pyramidLevels =
     prepareWithPyramid this' tmpl targetPyramid w pyramidLevels.
Proof.
  intros Hd. unfold prepare, prepareWithPyramid, setLevel, withPyramids.
  cbn [derived _templatePyramid _targetPyramid _levels _level _error].
  rewrite Hd. split; reflexivity.
Qed.

(** *** A run that accepts nothing *)

Lemma iterations_none_accepted (fuel : nat) (lev iter ipl : Z) (eps : S) (st : State) :
  (forall a, In a (iterationsTrace fuel lev iter ipl eps st) ->
             isAccepted (at_outcome a) = false) ->
  st_ws (iterations fuel lev iter ipl eps st) = st_ws st
  /\ st_steps (iterations fuel lev iter ipl eps st) = st_steps st
  /\ lastError (st_this (iterations fuel lev iter ipl eps st)) = lastError (st_this st).
Proof.
  destruct fuel as [|fuel]; cbn [iterations iterationsTrace]; [repeat split|].
  destruct (iter <? ipl); [|repeat split].
  intros Hall. specialize (Hall _ (or_introl eq_refl)). cbn [at_outcome] in Hall.
  rewrite (alignIteration_rejected _ _ _ _ Hall). repeat split.
Qed.

Lemma levelsFrom_none_accepted (fuel : nat) (lev ipl : Z) (eps : S) (st : State) :
  (forall a, In a (allAttempts (levelsTrace fuel lev ipl eps st)) ->
             isAccepted (at_outcome a) = false) ->
  st_steps (levelsFrom fuel lev ipl eps st) = st_steps st
  /\ (0 <= lev -> (Z.to_nat (lev + 1) <= fuel)%nat ->
      st_ws (levelsFrom fuel lev ipl eps st) =
        Nat.iter (Z.to_nat (lev + 1)) (fun ws => scaled ws 1) (st_ws st)
      /\ lastError (st_this (levelsFrom fuel lev ipl eps st)) = smax).
Proof.
  revert lev st.
  induction fuel as [|fuel IH]; intros lev st; cbn [levelsFrom levelsTrace].
  - intros _. split; [reflexivity|]. intros; lia.
  - destruct (lev >=? 0) eqn:E; [|intros _; split; [reflexivity|intros; lia]].
    unfold allAttempts. cbn [flat_map visitLevel lv_attempts]. intros Hall.
    assert (Hhere : forall a,
               In a (iterationsTrace (Z.to_nat ipl) lev 0 ipl eps (enterLevel lev st)) ->
               isAccepted (at_outcome a) = false)
      by (intros a Ha; apply Hall, in_or_app; left; exact Ha).
    assert (Hrest : forall a,
               In a (allAttempts (levelsTrace fuel (lev - 1) ipl eps
                                              (alignLevel lev ipl eps st))) ->
               isAccepted (at_outcome a) = false)
      by (intros a Ha; apply Hall, in_or_app; right; exact Ha).
    destruct (iterations_none_accepted _ _ _ _ _ _ Hhere) as (Hw & Hs & He).
    fold (alignLevel lev ipl eps st) in Hw, Hs, He.
    cbn [enterLevel st_ws st_steps st_this] in Hw, Hs, He.
    destruct (IH (lev - 1) (alignLevel lev ipl eps st) Hrest) as [Hs' Hw'].
    split; [congruence|]. intros Hl Hf.
    destruct (Z.eq_dec lev 0) as [->|Hnz].
    + destruct fuel; cbn [levelsFrom];
        [|change (0 - 1 >=? 0) with false; cbv iota];
        (split; [exact Hw|rewrite He; reflexivity]).
    + destruct (Hw' ltac:(lia) ltac:(lia)) as [Hw1 Hw2].
      split; [|exact Hw2].
      rewrite Hw1, Hw.
      replace (Z.to_nat (lev + 1)) with (Datatypes.S (Z.to_nat (lev - 1 + 1))) by lia.
      rewrite Nat.iter_succ_r. reflexivity.
Qed.

(** X15. When no step of a run is accepted (every level rejects its first
    step, or has no budget), [align] never calls [applyStep]: the warp written
    back is [w.scaled(-n)] rescaled [n] times by [scaled(1)], with [n] the
    level count; the steps container is as it was and [lastError()] is the
    sentinel. *)
Theorem align_nothing_accepted (this : Base) (w : W) (maxIterations : Z) (eps : S)
    (steps : option (list W)) :
  1 <= numLevels this ->
  (forall a, In a (allAttempts (alignTrace this w maxIterations eps steps)) ->
             isAccepted (at_outcome a) = false) ->
  st_ws (align this w maxIterations eps steps) =
    Nat.iter (Z.to_nat (numLevels this)) (fun ws => scaled ws 1)
             (scaled w (- numLevels this))
  /\ st_steps (align this w maxIterations eps steps) = steps
  /\ lastError (st_this (align this w maxIterations eps steps)) = smax.
Proof.
  intros Hn Hall. unfold align. cbv zeta.
  destruct (levelsFrom_none_accepted _ _ _ _ _ Hall) as [Hs Hw].
  destruct (Hw ltac:(lia) ltac:(lia)) as [Hw1 Hw2].
  split; [|split; [exact Hs|exact Hw2]].
  rewrite Hw1. cbn [st_ws].
  replace (numLevels this - 1 + 1) with (numLevels this) by lia. reflexivity.
Qed.

(** *** The two overloads *)

(** X16. The second overload on a pyramid built beforehand gives the engine
    the first overload gives on the image itself, for a pyramid collaborator
    whose [create(img, k)] has [k] levels, the image as level 0, and
    [create(img, l)] as its first [l] levels, when the pyramid was built with
    no more levels than the target's size supports and at least as many as
    will be used. *)
Theorem prepare_overloads_agree (this : Base) (tmpl target : Img) (w : W)
    (pyramidLevels k : Z) :
  (forall img n, 1 <= n -> pyrNumLevels (create img n) = n) ->
  (forall img n, 1 <= n -> pyrAt (create img n) 0 = Some img) ->
  (forall img n l, 1 <= l <= n -> slice (create img n) 0 l = create img l) ->
  1 <= k ->
  Z.min pyramidLevels (maxLevelsForImageSize (size target)) <= k
    <= maxLevelsForImageSize (size target) ->
  prepareWithPyramid this tmpl (create target k) w pyramidLevels =
  prepare this tmpl target w pyramidLevels.
Proof.
  intros Hlen Hfirst Hslice Hk Hrange.
  unfold prepareWithPyramid, prepare.
  rewrite (Hlen target k Hk), (Hfirst target k Hk).
  replace (k >? 0) with true by lia. cbn [negb].
  destruct (channels tmpl =? 1); cbn [negb]; [|reflexivity].
  destruct (channels target =? 1); cbn [negb]; [|reflexivity].
  cbv zeta. unfold sanitizeLevels.
  set (mt := maxLevelsForImageSize (size tmpl)) in *.
  set (mg := maxLevelsForImageSize (size target)) in *.
  assert (Hsame : Z.max 1 (Z.min pyramidLevels (Z.min mt k)) =
                  Z.max 1 (Z.min pyramidLevels (Z.min mt mg))) by lia.
  rewrite Hsame.
  set (levels := Z.max 1 (Z.min pyramidLevels (Z.min mt mg))).
  assert (Hlev : 1 <= levels <= k) by (unfold levels; lia).
  destruct (k >? levels) eqn:E.
  - rewrite (Hslice target k levels Hlev). reflexivity.
  - replace k with levels by lia. reflexivity.
Qed.

(** *** [prepare], then [align] *)

Lemma attempt_level (this : Base) (w : W) (maxIterations : Z) (eps : S)
    (steps : option (list W)) (a : Attempt) :
  In a (allAttempts (alignTrace this w maxIterations eps steps)) ->
  level (st_this (at_before a)) = at_level a
  /\ 0 <= at_level a < numLevels this
  /\ sameConfiguration (st_this (at_before a)) this.
Proof.
  intros Ha. apply allAttempts_In in Ha as (v & Hv & Ha).
  pose proof (levelsTrace_In _ _ _ _ _ _ Hv) as [_ Hrange].
  pose proof (levelsTrace_fields _ _ _ _ _ _ Hv) as (Hentry & Hatt & _).
  pose proof (levelsTrace_frame _ _ _ _ _ _ Hv) as Hc.
  pose proof (levelsTrace_attempt _ _ _ _ _ _ _ Hv Ha) as (Hlev & _ & _).
  rewrite Hatt in Ha. apply iterationsTrace_frame in Ha as (Hc' & Hl').
  cbn [st_this] in Hc.
  rewrite Hentry in Hc', Hl'. cbn [enterLevel st_this] in Hc', Hl'.
  rewrite setLevel_level in Hl'.
  assert (Hn : numLevels (st_this (lv_before v)) = numLevels this)
    by (destruct Hc as (_ & _ & Hn); exact Hn).
  rewrite Hn in Hl'.
  split; [lia|]. split; [lia|].
  eapply sameConfiguration_trans; [exact Hc'|].
  eapply sameConfiguration_trans; [|exact Hc]. repeat split.
Qed.

(** X17. [align] on the engine the second overload of [prepare] returns: the
    engine has at least one level, so line 168 does not divide by zero; the
    run visits that many levels; and at every call of [alignImpl] the image
    [targetImage()] exists and is the level being refined of the pyramid that
    was passed to [prepare]. *)
Theorem prepareWithPyramid_then_align (this this' : Base) (tmpl : Img)
    (target : ImagePyramid Img) (w0 w : W) (pyramidLevels maxIterations : Z)
    (eps : S) (steps : option (list W)) :
  prepareWithPyramid this tmpl target w0 pyramidLevels = Some this' ->
  1 <= numLevels this'
  /\ Z.of_nat (length (alignTrace this' w maxIterations eps steps)) = numLevels this'
  /\ forall a, In a (allAttempts (alignTrace this' w maxIterations eps steps)) ->
       targetImage (st_this (at_before a)) = pyrAt target (at_level a)
       /\ exists img, targetImage (st_this (at_before a)) = Some img.
Proof.
  intros Hp.
  pose proof (prepareWithPyramid_inv _ _ _ _ _ _ Hp) as (Hn & Ht & H0).
  rewrite (prepareWithPyramid_ok _ _ _ _ _ Hn Ht H0) in Hp. cbv zeta in Hp.
  injection Hp as <-.
  set (levels := sanitizeLevels pyramidLevels
                   (Z.min (maxLevelsForImageSize (size tmpl)) (pyrNumLevels target))).
  set (kept := if pyrNumLevels target >? levels then slice target 0 levels else target).
  set (this' := withDerived _ _).
  assert (Hlevels : 1 <= levels <= pyrNumLevels target)
    by (unfold levels, sanitizeLevels; lia).
  assert (Hnum : numLevels this' = levels) by reflexivity.
  assert (Hkept : _targetPyramid this' = kept) by reflexivity.
  split; [lia|]. split; [rewrite alignTrace_length; lia|].
  intros a Ha.
  destruct (attempt_level _ _ _ _ _ _ Ha) as (Hactive & Hrange & (_ & Hg & _)).
  rewrite Hnum in Hrange.
  assert (Himg : targetImage (st_this (at_before a)) = pyrAt target (at_level a)).
  { unfold targetImage. fold (level (st_this (at_before a))).
    rewrite Hactive, Hg, Hkept. unfold kept.
    destruct (pyrNumLevels target >? levels); [apply pyrAt_slice; exact Hrange|].
    reflexivity. }
  split; [exact Himg|]. rewrite Himg. apply pyrAt_defined. lia.
Qed.

(** *** The first step of a level *)

(** X18. The first step attempted on a level is judged against the sentinel,
    not against the error reached on the level before: [lastError()] is
    [numeric_limits<ScalarType>::max()] when it is attempted, and it is
    accepted exactly when [numConstraints > 0] and [max - newError >= 0]. *)
Theorem align_level_starts_afresh (this : Base) (w : W) (maxIterations : Z) (eps : S)
    (steps : option (list W)) (v : LevelVisit) (a : Attempt) (rest : list Attempt) :
  In v (alignTrace this w maxIterations eps steps) ->
  lv_attempts v = a :: rest ->
  at_iter a = 0
  /\ at_before a = lv_entry v
  /\ lastError (st_this (at_before a)) = smax
  /\ (isAccepted (at_outcome a) = true <->
      0 < numConstraints (at_step a)
      /\ sge (ssub smax (at_newError a)) (ofInt 0) = true).
Proof.
  intros Hv Hatt.
  pose proof (levelsTrace_fields _ _ _ _ _ _ Hv) as (Hentry & Htrace & _).
  assert (Ha : In a (lv_attempts v)) by (rewrite Hatt; left; reflexivity).
  pose proof (levelsTrace_attempt _ _ _ _ _ _ _ Hv Ha) as (_ & _ & Ho).
  pose proof (iterationsTrace_chained
                (Z.to_nat (Z.quot maxIterations (numLevels this))) (lv_level v) 0
                (Z.quot maxIterations (numLevels this)) eps (lv_entry v)) as Hch.
  pose proof (iterationsTrace_iters
                (Z.to_nat (Z.quot maxIterations (numLevels this))) (lv_level v) 0
                (Z.quot maxIterations (numLevels this)) eps (lv_entry v)) as Hit.
  rewrite <- Htrace, Hatt in Hch, Hit.
  cbn [attemptsChained] in Hch. destruct Hch as [Hbefore _].
  cbn [map length seq] in Hit. injection Hit as Hiter _.
  assert (Herr : lastError (st_this (at_before a)) = smax)
    by (rewrite Hbefore, Hentry; reflexivity).
  split; [lia|]. split; [exact Hbefore|]. split; [exact Herr|].
  rewrite Ho, alignIteration_accepted_iff. cbv zeta.
  fold (at_step a). fold (at_newError a). rewrite Herr.
  split.
  - intros (H1 & H2 & _). split; assumption.
  - intros (H1 & H2). split; [exact H1|]. split; [exact H2|]. left. lia.
Qed.

(** *** Calling [align] again *)

Lemma setLevel_sameConfiguration (a b : Base) (lev : Z) :
  sameConfiguration a b -> derived a = derived b -> setLevel a lev = setLevel b lev.
Proof.
  intros (Ht & Hg & Hn) Hd. unfold setLevel, numLevels.
  rewrite Ht, Hg, Hn, Hd. reflexivity.
Qed.

(** X19. On an engine with at least one level [align] takes nothing from the
    active level or from [lastError()]: two engines with the same pyramids,
    level count and derived part give the same run, whatever [setLevel] or an
    earlier [align] left in them. *)
Theorem align_repeatable (this this' : Base) (w : W) (maxIterations : Z) (eps : S)
    (steps : option (list W)) :
  1 <= numLevels this ->
  sameConfiguration this this' -> derived this = derived this' ->
  align this w maxIterations eps steps = align this' w maxIterations eps steps.
Proof.
  intros Hn Hc Hd.
  assert (Hnum : numLevels this' = numLevels this)
    by (destruct Hc as (_ & _ & H); unfold numLevels; congruence).
  unfold align. cbv zeta. rewrite Hnum.
  destruct (Z.to_nat (numLevels this)) as [|fuel] eqn:E; [lia|].
  cbn [levelsFrom]. replace (numLevels this - 1 >=? 0) with true by lia.
  f_equal. unfold alignLevel. f_equal. unfold enterLevel. cbn [st_this st_ws st_steps].
  rewrite (setLevel_sameConfiguration this this' _ Hc Hd). reflexivity.
Qed.

End EngineFacts.

(** ** The engine on the concrete instance *)

Import Demo.

(** [Demo.prepared] is what [prepare] returns on the 64x64 template and the
    640x480 target, with three levels requested and with one. *)
Lemma prepared_by_prepare (script : list Result) :
  prepare (fresh script) (gray 64 64) (gray 640 480) origin 3 = Some (prepared 3 script)
  /\ prepare (fresh script) (gray 64 64) (gray 640 480) origin 1 = Some (prepared 1 script).
Proof. split; reflexivity. Qed.

(** A run of [align] on [Demo.sixSteps]: three levels, nine iterations. *)
Lemma align_iteration_budget_witness :
  1 <= numLevels (Demo.prepared 3 Demo.sixSteps)
  /\ Z.of_nat (length (allAttempts
        (alignTrace (Demo.prepared 3 Demo.sixSteps) Demo.origin 9 0%float (Some [])))) <=
     numLevels (Demo.prepared 3 Demo.sixSteps) *
     Z.quot 9 (numLevels (Demo.prepared 3 Demo.sixSteps)).
Proof.
  assert (Hn : 1 <= numLevels (Demo.prepared 3 Demo.sixSteps))
    by (apply Z.leb_le; reflexivity).
  split; [exact Hn|].
  apply (align_iteration_budget (Demo.prepared 3 Demo.sixSteps) Demo.origin 9 0%float
           (Some []) Hn).
  apply Z.leb_le; reflexivity.
Defined.

(** The same run: the levels visited are 2, 1, 0, and the warp returned is at
    the level of [origin]. *)
Lemma align_coarse_to_fine_witness :
  1 <= numLevels (Demo.prepared 3 Demo.sixSteps)
  /\ map lv_level (alignTrace (Demo.prepared 3 Demo.sixSteps) Demo.origin 9 0%float
                              (Some [])) = [2; 1; 0]
  /\ (forall (w : Translation) (k : Z), atLevel (scaled w k) = atLevel w - k)
  /\ (forall (this : Engine) (w : Translation) (s : Result),
        atLevel (fst (applyStep this w s)) = atLevel w)
  /\ atLevel (st_ws (align (Demo.prepared 3 Demo.sixSteps) Demo.origin 9 0%float
                           (Some []))) = atLevel Demo.origin.
Proof.
  assert (Hn : 1 <= numLevels (Demo.prepared 3 Demo.sixSteps))
    by (apply Z.leb_le; reflexivity).
  assert (Hs : forall (w : Translation) (k : Z), atLevel (scaled w k) = atLevel w - k)
    by reflexivity.
  assert (Ha : forall (this : Engine) (w : Translation) (s : Result),
             atLevel (fst (applyStep this w s)) = atLevel w)
    by reflexivity.
  pose proof (align_coarse_to_fine (Demo.prepared 3 Demo.sixSteps) Demo.origin 9
                0%float (Some []) Hn) as (Hlevels & _ & _ & _ & _ & Hpar).
  split; [exact Hn|]. split; [exact Hlevels|].
  split; [exact Hs|]. split; [exact Ha|].
  exact (proj2 (Hpar atLevel Hs Ha)).
Defined.

(** The first attempt of that run is accepted: it is iteration 0, the step
    has two constraints and mean error 4. *)
Lemma align_accepts_step_witness :
  In (firstAttempt (prepared 3 sixSteps) origin 0%float (Some []))
     (allAttempts (alignTrace (prepared 3 sixSteps) origin 9 0%float (Some [])))
  /\ isAccepted (at_outcome (firstAttempt (prepared 3 sixSteps) origin 0%float
                                          (Some []))) = true
  /\ lastError (st_this (at_after (firstAttempt (prepared 3 sixSteps) origin 0%float
                                                (Some [])))) =
     sdiv (sumErrors (at_step (firstAttempt (prepared 3 sixSteps) origin 0%float
                                            (Some []))))
          (ofInt (numConstraints (at_step (firstAttempt (prepared 3 sixSteps) origin
                                                        0%float (Some []))))).
Proof.
  assert (Hin : In (firstAttempt (prepared 3 sixSteps) origin 0%float (Some []))
                   (allAttempts (alignTrace (prepared 3 sixSteps) origin 9 0%float
                                            (Some []))))
    by (left; reflexivity).
  assert (Hacc : isAccepted (at_outcome (firstAttempt (prepared 3 sixSteps) origin
                                                      0%float (Some []))) = true)
    by reflexivity.
  split; [exact Hin|]. split; [exact Hacc|].
  pose proof (align_accepts_step (prepared 3 sixSteps) origin 9 0%float (Some []))
    as [Hall _].
  destruct (Hall _ Hin) as [_ Heffect].
  destruct (Heffect Hacc) as (_ & Herr & _).
  exact Herr.
Defined.

(** An engine of one level whose algorithm has no step to offer: the only
    attempt has no constraints, and the warp stays where it was. *)
Lemma align_no_constraints_witness :
  In (firstAttempt (prepared 1 []) origin 0%float None)
     (allAttempts (alignTrace (prepared 1 []) origin 1 0%float None))
  /\ numConstraints (at_step (firstAttempt (prepared 1 []) origin 0%float None)) = 0
  /\ st_ws (at_after (firstAttempt (prepared 1 []) origin 0%float None)) =
     st_ws (at_before (firstAttempt (prepared 1 []) origin 0%float None)).
Proof.
  assert (Hin : In (firstAttempt (prepared 1 []) origin 0%float None)
                   (allAttempts (alignTrace (prepared 1 []) origin 1 0%float None)))
    by (left; reflexivity).
  assert (Hz : numConstraints (at_step (firstAttempt (prepared 1 []) origin 0%float
                                                     None)) = 0)
    by reflexivity.
  split; [exact Hin|]. split; [exact Hz|].
  apply (align_no_constraints (prepared 1 []) origin 1 0%float None _ Hin Hz).
Defined.

(** C7 fails as stated: with two steps of mean error 3 on a one-level engine,
    the second step is accepted and [lastError()] is 3 before it and 3 after
    it. *)
Lemma align_accepts_equal_error :
  map summary (allAttempts (alignTrace (prepared 1 twoEqualSteps) origin 2 0%float None))
  = [ (0, 0, true, smax, 3%float); (0, 1, true, 3%float, 3%float) ]
  /\ existsb (fun a => isAccepted (at_outcome a)
                       && negb (PrimFloat.ltb (lastError (st_this (at_after a)))
                                              (lastError (st_this (at_before a)))))
             (allAttempts (alignTrace (prepared 1 twoEqualSteps) origin 2 0%float None))
     = true.
Proof. split; vm_compute; reflexivity. Qed.

(** On that run the second attempt is accepted with error change 0. *)
Lemma align_no_retry_witness :
  In (firstAttempt (prepared 1 twoEqualSteps) origin 0%float None)
     (allAttempts (alignTrace (prepared 1 twoEqualSteps) origin 2 0%float None))
  /\ isAccepted (at_outcome (firstAttempt (prepared 1 twoEqualSteps) origin 0%float
                                          None)) = true
  /\ lastError (st_this (at_after (firstAttempt (prepared 1 twoEqualSteps) origin
                                                0%float None))) = 3%float.
Proof.
  assert (Hin : In (firstAttempt (prepared 1 twoEqualSteps) origin 0%float None)
                   (allAttempts (alignTrace (prepared 1 twoEqualSteps) origin 2 0%float
                                            None)))
    by (left; reflexivity).
  assert (Hacc : isAccepted (at_outcome (firstAttempt (prepared 1 twoEqualSteps) origin
                                                      0%float None)) = true)
    by reflexivity.
  split; [exact Hin|]. split; [exact Hacc|].
  pose proof (align_no_retry (prepared 1 twoEqualSteps) origin 2 0%float None)
    as (_ & _ & Hall).
  destruct (Hall _ Hin Hacc) as [_ Herr].
  rewrite Herr. reflexivity.
Defined.

(** An attempt without constraints on the run of [Demo.sixSteps]: the guarded
    loop reports the division, [align] rejects the step. *)
Lemma align_division_before_guard_witness :
  (exists a,
     In a (allAttempts (alignTrace (prepared 3 sixSteps) origin 9 0%float (Some [])))
     /\ numConstraints (at_step a) = 0)
  /\ alignChecked (prepared 3 sixSteps) origin 9 0%float (Some []) = None.
Proof.
  assert (Hex : exists a,
             In a (allAttempts (alignTrace (prepared 3 sixSteps) origin 9 0%float
                                           (Some [])))
             /\ numConstraints (at_step a) = 0).
  { assert (E : existsb dividesByZero
                  (allAttempts (alignTrace (prepared 3 sixSteps) origin 9 0%float
                                           (Some []))) = true) by reflexivity.
    apply existsb_exists in E as (a & Ha & Hz).
    exists a. split; [exact Ha|]. apply Z.eqb_eq. exact Hz. }
  split; [exact Hex|].
  apply (align_division_before_guard (prepared 3 sixSteps) origin 9 0%float (Some [])).
  exact Hex.
Defined.

(** [prepare] on the 64x64 template and the 640x480 target, three levels
    requested: the template supports five levels and the target seven, and
    the engine has three. *)
Lemma prepare_numLevels_witness :
  channels (gray 64 64) = 1 /\ channels (gray 640 480) = 1 /\ 1 <= 3
  /\ 1 <= maxLevelsForImageSize (size (gray 64 64))
  /\ 1 <= maxLevelsForImageSize (size (gray 640 480))
  /\ exists this',
       prepare (fresh []) (gray 64 64) (gray 640 480) origin 3 = Some this'
       /\ numLevels this' = 3
       /\ numLevels this' <= maxLevelsForImageSize (size (gray 64 64))
       /\ numLevels this' <= maxLevelsForImageSize (size (gray 640 480)).
Proof.
  assert (Ht : channels (gray 64 64) = 1) by reflexivity.
  assert (Hg : channels (gray 640 480) = 1) by reflexivity.
  assert (Hr : 1 <= 3) by lia.
  assert (Hmt : 1 <= maxLevelsForImageSize (size (gray 64 64)))
    by (apply Z.leb_le; reflexivity).
  assert (Hmg : 1 <= maxLevelsForImageSize (size (gray 640 480)))
    by (apply Z.leb_le; reflexivity).
  split; [exact Ht|]. split; [exact Hg|]. split; [exact Hr|].
  split; [exact Hmt|]. split; [exact Hmg|].
  destruct (prepare_numLevels (fresh []) (gray 64 64) (gray 640 480) origin 3 Ht Hg Hr)
    as (this' & Hp & Hlev & _ & Hbt & Hbg & _).
  exists this'. split; [exact Hp|]. split; [rewrite Hlev; reflexivity|].
  split; [exact (Hbt Hmt)|exact (Hbg Hmg)].
Defined.

(** The second overload on a 64x64 template and the five-level pyramid, three
    levels requested: the engine holds the first three levels. *)
Lemma prepareWithPyramid_target_witness :
  0 < pyrNumLevels fiveLevels /\ channels (gray 64 64) = 1
  /\ option_map channels (pyrAt fiveLevels 0) = Some 1
  /\ exists this',
       prepareWithPyramid (fresh []) (gray 64 64) fiveLevels origin 3 = Some this'
       /\ numLevels this' = 3
       /\ _targetPyramid this' = slice fiveLevels 0 3.
Proof.
  assert (Hn : 0 < pyrNumLevels fiveLevels) by (apply Z.ltb_lt; reflexivity).
  assert (Ht : channels (gray 64 64) = 1) by reflexivity.
  assert (H0 : option_map channels (pyrAt fiveLevels 0) = Some 1) by reflexivity.
  split; [exact Hn|]. split; [exact Ht|]. split; [exact H0|].
  destruct (prepareWithPyramid_target (fresh []) (gray 64 64) fiveLevels origin 3
              Hn Ht H0) as (this' & Hp & Hlev & _ & _ & _ & Hslice).
  exists this'. split; [exact Hp|]. split; [rewrite Hlev; reflexivity|].
  assert (Hlt : Z.max 1 (Z.min 3 (Z.min (maxLevelsForImageSize (size (gray 64 64)))
                                        (pyrNumLevels fiveLevels)))
                < pyrNumLevels fiveLevels) by (apply Z.ltb_lt; reflexivity).
  destruct (Hslice Hlt) as [Heq _]. rewrite Heq. reflexivity.
Defined.

(** C6 fails as stated: the sliced engine need not have the requested count.
    A 16x16 template supports three levels; with four requested of the
    five-level pyramid the engine has three.  With none requested of a
    two-level pyramid it has one. *)
Lemma prepareWithPyramid_not_requested :
  (maxLevelsForImageSize (size (gray 16 16)) = 3
   /\ pyrNumLevels fiveLevels = 5
   /\ option_map (fun this' => (numLevels this', _targetPyramid this'))
                 (prepareWithPyramid (fresh []) (gray 16 16) fiveLevels origin 4)
      = Some (3, slice fiveLevels 0 3))
  /\ (pyrNumLevels (create (gray 640 480) 2) = 2
      /\ option_map (fun this' => (numLevels this', _targetPyramid this'))
                    (prepareWithPyramid (fresh []) (gray 64 64)
                                        (create (gray 640 480) 2) origin 0)
         = Some (1, slice (create (gray 640 480) 2) 0 1)).
Proof. repeat split. Qed.

(** [setLevel(5)] on the three-level engine selects level 2, and [prepare]
    leaves level 0 and the sentinel. *)
Lemma setLevel_clamps_witness :
  1 <= numLevels (prepared 3 []) /\ 3 - 1 < 5
  /\ level (setLevel (prepared 3 []) 5) = 3 - 1
  /\ channels (gray 64 64) = 1 /\ channels (gray 640 480) = 1
  /\ exists this',
       prepare (fresh []) (gray 64 64) (gray 640 480) origin 3 = Some this'
       /\ level this' = 0 /\ lastError this' = 0x1.fffffffffffffp+1023%float.
Proof.
  assert (Hn : 1 <= numLevels (prepared 3 [])) by (apply Z.leb_le; reflexivity).
  assert (Hr : numLevels (prepared 3 []) - 1 < 5) by (apply Z.ltb_lt; reflexivity).
  assert (Ht : channels (gray 64 64) = 1) by reflexivity.
  assert (Hg : channels (gray 640 480) = 1) by reflexivity.
  split; [exact Hn|]. split; [lia|].
  split.
  - destruct (setLevel_clamps (prepared 3 []) 5) as (_ & _ & _ & _ & _ & Hc & _).
    destruct (Hc Hn) as (_ & _ & _ & Hhi). exact (Hhi Hr).
  - split; [exact Ht|]. split; [exact Hg|].
    destruct (setLevel_clamps (fresh []) 0) as (_ & _ & _ & _ & _ & _ & Hp & _).
    exact (Hp (gray 64 64) (gray 640 480) origin 3 Ht Hg).
Defined.

(** ** [isInImage] on doubles *)

(** C8. [isInImage(p, imgSize, r)] takes [x = floor(p(0) - 0.5)] and
    [y = floor(p(1) - 0.5)], the half-pixel offset applied before the
    truncation, and on [int] arguments is true exactly when [x >= r],
    [y >= r], [x < width - r] and [y < height - r], the two differences as
    the 32-bit subtraction gives them.  Where these subtractions stay within
    [int] the differences are the exact ones, and [isInImage] is false exactly
    when one of the four comparisons fails, that is, when the pixel lies
    within [r] pixels of an edge.  On doubles, (0.4, 0.4) is outside a 10x10
    image with border 0 and (5.0, 5.0) is inside it with border 2. *)
Theorem isInImage_half_pixel :
  (forall (S : Type) (scalarType : ScalarType S) (p : PointType S) (imgSize : Size)
          (r : Z),
     intInputs p imgSize r ->
     let x := floorInt (ssub (coord0 p) shalf) in
     let y := floorInt (ssub (coord1 p) shalf) in
     (isInImage p imgSize r = true <->
        x >= r /\ y >= r
        /\ x < wrapInt (width imgSize - r) /\ y < wrapInt (height imgSize - r))
     /\ (noOverflow imgSize r ->
         (isInImage p imgSize r = true <->
            x >= r /\ y >= r /\ x < width imgSize - r /\ y < height imgSize - r)
         /\ (isInImage p imgSize r = false <->
             x < r \/ y < r \/ x >= width imgSize - r \/ y >= height imgSize - r)))
  /\ isInImage {| coord0 := 0x1.999999999999ap-2%float;
                  coord1 := 0x1.999999999999ap-2%float |}
               {| width := 10; height := 10 |} 0 = false
  /\ isInImage {| coord0 := 5.0%float; coord1 := 5.0%float |}
               {| width := 10; height := 10 |} 2 = true.
Proof.
  split; [|split; reflexivity].
  intros S scalarType p imgSize r _. cbv zeta. split.
  - apply isInImage_wrapped.
  - intros Hno. apply (isInImage_iff p imgSize r Hno).
Qed.

(** (5.0, 5.0) in the 10x10 image with border 2: all arguments are values of
    [int], nothing overflows, and the four comparisons decide. *)
Lemma isInImage_half_pixel_witness :
  intInputs {| coord0 := 5.0%float; coord1 := 5.0%float |}
            {| width := 10; height := 10 |} 2
  /\ noOverflow {| width := 10; height := 10 |} 2
  /\ (isInImage {| coord0 := 5.0%float; coord1 := 5.0%float |}
                {| width := 10; height := 10 |} 2 = true <->
      floorInt (ssub 5.0%float shalf) >= 2 /\ floorInt (ssub 5.0%float shalf) >= 2
      /\ floorInt (ssub 5.0%float shalf) < 10 - 2
      /\ floorInt (ssub 5.0%float shalf) < 10 - 2).
Proof.
  assert (Hint : intInputs {| coord0 := 5.0%float; coord1 := 5.0%float |}
                           {| width := 10; height := 10 |} 2)
    by (unfold intInputs, fitsInt; repeat split; apply Z.leb_le; reflexivity).
  assert (Hno : noOverflow {| width := 10; height := 10 |} 2)
    by (unfold noOverflow, fitsInt; repeat split; apply Z.leb_le; reflexivity).
  split; [exact Hint|]. split; [exact Hno|].
  destruct isInImage_half_pixel as [Hall _].
  destruct (Hall float binary64 {| coord0 := 5.0%float; coord1 := 5.0%float |}
              {| width := 10; height := 10 |} 2 Hint) as [_ Hexact].
  destruct (Hexact Hno) as [Htrue _]. exact Htrue.
Defined.

(** With border [INT_MIN] the subtraction [10 - r] wraps to [INT_MIN + 10]:
    (5.0, 5.0) is rejected.  A NaN coordinate converts to [INT_MIN] and is
    rejected with border 0. *)
Lemma isInImage_border_overflow :
  wrapInt (10 - INT_MIN) = INT_MIN + 10
  /\ isInImage {| coord0 := 5.0%float; coord1 := 5.0%float |}
               {| width := 10; height := 10 |} INT_MIN = false
  /\ isInImage {| coord0 := nan; coord1 := 5.0%float |}
               {| width := 10; height := 10 |} 0 = false.
Proof. repeat split. Qed.

(** ** Further runs on the concrete instance *)

(** Ten units of fuel for the three levels and the three iterations a level
    of the run on [Demo.sixSteps]. *)
Lemma align_fuel_enough_witness :
  (Z.to_nat (numLevels (prepared 3 sixSteps)) <= 10)%nat
  /\ (Z.to_nat (Z.quot 9 (numLevels (prepared 3 sixSteps))) <= 10)%nat
  /\ levelsFrom 10 (numLevels (prepared 3 sixSteps) - 1)
                 (Z.quot 9 (numLevels (prepared 3 sixSteps))) 0%float
                 {| st_this := prepared 3 sixSteps;
                    st_ws := scaled origin (- numLevels (prepared 3 sixSteps));
                    st_steps := Some [] |}
     = align (prepared 3 sixSteps) origin 9 0%float (Some []).
Proof.
  assert (Hl : (Z.to_nat (numLevels (prepared 3 sixSteps)) <= 10)%nat)
    by (apply Nat.leb_le; reflexivity).
  assert (Hi : (Z.to_nat (Z.quot 9 (numLevels (prepared 3 sixSteps))) <= 10)%nat)
    by (apply Nat.leb_le; reflexivity).
  split; [exact Hl|]. split; [exact Hi|].
  apply (align_fuel_enough (prepared 3 sixSteps) origin 9 0%float (Some []) 10 10 Hl Hi).
Defined.

(** After the run on [Demo.sixSteps] the active level is 0. *)
Lemma align_frame_witness :
  1 <= numLevels (prepared 3 sixSteps)
  /\ level (st_this (align (prepared 3 sixSteps) origin 9 0%float (Some []))) = 0.
Proof.
  assert (Hn : 1 <= numLevels (prepared 3 sixSteps)) by (apply Z.leb_le; reflexivity).
  split; [exact Hn|].
  apply (align_frame (prepared 3 sixSteps) origin 9 0%float (Some [])). exact Hn.
Defined.

(** The second step of [Demo.twoEqualSteps] is accepted on iteration 1: its
    update has length 1, which is at least [eps = 0]. *)
Lemma alignIteration_first_exempt_witness :
  1 <> 0
  /\ isAccepted (alignIteration 0 1 0%float
                   (at_after (firstAttempt (prepared 1 twoEqualSteps) origin 0%float
                                           None))) = true
  /\ sge (norm (delta (stepOf (at_after (firstAttempt (prepared 1 twoEqualSteps) origin
                                                      0%float None)))))
         0%float = true.
Proof.
  assert (Hi : 1 <> 0) by lia.
  assert (Hacc : isAccepted (alignIteration 0 1 0%float
                   (at_after (firstAttempt (prepared 1 twoEqualSteps) origin 0%float
                                           None))) = true) by reflexivity.
  split; [exact Hi|]. split; [exact Hacc|].
  apply (alignIteration_first_exempt 0 1 0%float 0%float
           (at_after (firstAttempt (prepared 1 twoEqualSteps) origin 0%float None))).
  - exact Hi.
  - exact Hacc.
Defined.

(** Two iterations for three levels: nothing is attempted and [lastError()]
    is the sentinel. *)
Lemma align_budget_zero_witness :
  1 <= numLevels (prepared 3 sixSteps) /\ 0 <= 2 < numLevels (prepared 3 sixSteps)
  /\ allAttempts (alignTrace (prepared 3 sixSteps) origin 2 0%float (Some [])) = []
  /\ lastError (st_this (align (prepared 3 sixSteps) origin 2 0%float (Some []))) =
     0x1.fffffffffffffp+1023%float.
Proof.
  assert (Hn : 1 <= numLevels (prepared 3 sixSteps)) by (apply Z.leb_le; reflexivity).
  assert (Hm : 0 <= 2 < numLevels (prepared 3 sixSteps))
    by (split; [apply Z.leb_le|apply Z.ltb_lt]; reflexivity).
  split; [exact Hn|]. split; [exact Hm|].
  destruct (align_budget_zero (prepared 3 sixSteps) origin 2 0%float (Some []) Hn Hm)
    as (_ & Ha & _ & _ & He).
  split; [exact Ha|exact He].
Defined.

(** ** Runs for the further facts *)

(** After the run on [Demo.sixSteps], [lastError()] is 1, the mean error of
    the step accepted on level 0. *)
Lemma align_lastError_witness :
  1 <= numLevels (prepared 3 sixSteps)
  /\ lastError (st_this (align (prepared 3 sixSteps) origin 9 0%float (Some []))) =
     1%float
  /\ exists t1 v,
       alignTrace (prepared 3 sixSteps) origin 9 0%float (Some []) = t1 ++ [v]
       /\ lv_level v = 0
       /\ lastError (st_this (align (prepared 3 sixSteps) origin 9 0%float (Some []))) =
          match lastAccepted (lv_attempts v) with
          | Some a => at_newError a
          | None => smax
          end.
Proof.
  assert (Hn : 1 <= numLevels (prepared 3 sixSteps)) by (apply Z.leb_le; reflexivity).
  split; [exact Hn|]. split; [reflexivity|].
  exact (align_lastError (prepared 3 sixSteps) origin 9 0%float (Some []) Hn).
Defined.

(** The run on [Demo.sixSteps] accepts five steps, within the nine allowed. *)
Lemma align_steps_appended_witness :
  1 <= numLevels (prepared 3 sixSteps) /\ 0 <= 9
  /\ length (acceptedAttempts
               (allAttempts (alignTrace (prepared 3 sixSteps) origin 9 0%float
                                        (Some [])))) = 5%nat
  /\ Z.of_nat (length (acceptedAttempts
                         (allAttempts (alignTrace (prepared 3 sixSteps) origin 9 0%float
                                                  (Some []))))) <= 9.
Proof.
  assert (Hn : 1 <= numLevels (prepared 3 sixSteps)) by (apply Z.leb_le; reflexivity).
  assert (Hm : 0 <= 9) by lia.
  split; [exact Hn|]. split; [exact Hm|]. split; [reflexivity|].
  apply (align_steps_appended (prepared 3 sixSteps) origin 9 0%float [] Hn Hm).
Defined.

(** (5.0, 5.0) is inside the 10x10 image with border 2, hence with border 1. *)
Lemma isInImage_margin_witness :
  intInputs {| coord0 := 5.0%float; coord1 := 5.0%float |}
            {| width := 10; height := 10 |} 2
  /\ noOverflow {| width := 10; height := 10 |} 2
  /\ isInImage {| coord0 := 5.0%float; coord1 := 5.0%float |}
               {| width := 10; height := 10 |} 2 = true
  /\ 1 <= 2 /\ fitsInt 1 /\ noOverflow {| width := 10; height := 10 |} 1
  /\ isInImage {| coord0 := 5.0%float; coord1 := 5.0%float |}
               {| width := 10; height := 10 |} 1 = true.
Proof.
  assert (Hint : intInputs {| coord0 := 5.0%float; coord1 := 5.0%float |}
                           {| width := 10; height := 10 |} 2)
    by (unfold intInputs, fitsInt; repeat split; apply Z.leb_le; reflexivity).
  assert (Hno : noOverflow {| width := 10; height := 10 |} 2)
    by (unfold noOverflow, fitsInt; repeat split; apply Z.leb_le; reflexivity).
  assert (Hin : isInImage {| coord0 := 5.0%float; coord1 := 5.0%float |}
                          {| width := 10; height := 10 |} 2 = true) by reflexivity.
  assert (Hr : 1 <= 2) by lia.
  assert (Hf : fitsInt 1) by (unfold fitsInt; split; apply Z.leb_le; reflexivity).
  assert (Hno' : noOverflow {| width := 10; height := 10 |} 1)
    by (unfold noOverflow, fitsInt; repeat split; apply Z.leb_le; reflexivity).
  split; [exact Hint|]. split; [exact Hno|]. split; [exact Hin|].
  split; [exact Hr|]. split; [exact Hf|]. split; [exact Hno'|].
  destruct (isInImage_margin {| coord0 := 5.0%float; coord1 := 5.0%float |}
              {| width := 10; height := 10 |} 2 1 Hint Hno Hin) as (_ & _ & _ & Hmono).
  exact (Hmono Hr Hf Hno').
Defined.

(** The first attempt of the run on [Demo.sixSteps] is made with level 2
    active. *)
Lemma align_active_level_witness :
  In (firstAttempt (prepared 3 sixSteps) origin 0%float (Some []))
     (allAttempts (alignTrace (prepared 3 sixSteps) origin 9 0%float (Some [])))
  /\ level (st_this (at_before (firstAttempt (prepared 3 sixSteps) origin 0%float
                                             (Some [])))) = 2.
Proof.
  assert (Hin : In (firstAttempt (prepared 3 sixSteps) origin 0%float (Some []))
                   (allAttempts (alignTrace (prepared 3 sixSteps) origin 9 0%float
                                            (Some []))))
    by (left; reflexivity).
  split; [exact Hin|].
  destruct (align_active_level (prepared 3 sixSteps) origin 9 0%float (Some []) _ Hin)
    as [Hl _].
  rewrite Hl. reflexivity.
Defined.

(** Level 7 is asked of an engine holding three levels of the five-level
    pyramid: [targetImage()] exists. *)
Lemma prepareWithPyramid_targetImage_witness :
  exists this',
    prepareWithPyramid (fresh []) (gray 64 64) fiveLevels origin 3 = Some this'
    /\ exists img, targetImage (setLevel this' 7) = Some img.
Proof.
  eexists. split; [reflexivity|].
  apply (prepareWithPyramid_targetImage (fresh []) _ (gray 64 64) fiveLevels origin 3 7).
  reflexivity.
Defined.

(** Five iterations for three levels: [eps = 0] and [eps = 100] give the same
    run. *)
Lemma align_eps_unused_witness :
  1 <= numLevels (prepared 3 sixSteps) /\ 5 < 2 * numLevels (prepared 3 sixSteps)
  /\ align (prepared 3 sixSteps) origin 5 0%float (Some []) =
     align (prepared 3 sixSteps) origin 5 100%float (Some []).
Proof.
  assert (Hn : 1 <= numLevels (prepared 3 sixSteps)) by (apply Z.leb_le; reflexivity).
  assert (Hm : 5 < 2 * numLevels (prepared 3 sixSteps)) by (apply Z.ltb_lt; reflexivity).
  split; [exact Hn|]. split; [exact Hm|].
  apply (align_eps_unused (prepared 3 sixSteps) origin 5 0%float 100%float (Some [])
           Hn Hm).
Defined.

(** No level requested of the 64x64 template and the 640x480 target: one
    level. *)
Lemma prepare_levels_edges_witness :
  channels (gray 64 64) = 1 /\ channels (gray 640 480) = 1 /\ 0 <= 1
  /\ exists this1,
       prepare (fresh []) (gray 64 64) (gray 640 480) origin 0 = Some this1
       /\ numLevels this1 = 1.
Proof.
  assert (Ht : channels (gray 64 64) = 1) by reflexivity.
  assert (Hg : channels (gray 640 480) = 1) by reflexivity.
  assert (H0 : 0 <= 1) by lia.
  split; [exact Ht|]. split; [exact Hg|]. split; [exact H0|].
  destruct (prepare_levels_edges (fresh []) (gray 64 64) (gray 640 480) fiveLevels
              origin 0 3) as [Hfirst _].
  destruct (Hfirst Ht Hg) as (this1 & this2 & Hp1 & _ & _ & Hone & _).
  exists this1. split; [exact Hp1|]. exact (Hone H0).
Defined.

(** A fresh engine and a prepared one with the same derived part are prepared
    to the same engine. *)
Lemma prepare_forgets_witness :
  derived (fresh sixSteps) = derived (prepared 3 sixSteps)
  /\ prepare (fresh sixSteps) (gray 64 64) (gray 640 480) origin 2 =
     prepare (prepared 3 sixSteps) (gray 64 64) (gray 640 480) origin 2.
Proof.
  assert (Hd : derived (fresh sixSteps) = derived (prepared 3 sixSteps)) by reflexivity.
  split; [exact Hd|].
  apply (prepare_forgets (fresh sixSteps) (prepared 3 sixSteps) (gray 64 64)
           (gray 640 480) fiveLevels origin 2 Hd).
Defined.

(** The one-level engine whose algorithm has no step to offer accepts nothing:
    the steps container stays empty. *)
Lemma align_nothing_accepted_witness :
  1 <= numLevels (prepared 1 [])
  /\ (forall a,
        In a (allAttempts (alignTrace (prepared 1 []) origin 4 0%float (Some []))) ->
        isAccepted (at_outcome a) = false)
  /\ st_steps (align (prepared 1 []) origin 4 0%float (Some [])) = Some [].
Proof.
  assert (Hn : 1 <= numLevels (prepared 1 [])) by (apply Z.leb_le; reflexivity).
  assert (Hall : forall a,
             In a (allAttempts (alignTrace (prepared 1 []) origin 4 0%float (Some []))) ->
             isAccepted (at_outcome a) = false).
  { intros a [<-|[]]. reflexivity. }
  split; [exact Hn|]. split; [exact Hall|].
  apply (align_nothing_accepted (prepared 1 []) origin 4 0%float (Some []) Hn Hall).
Defined.

Lemma buildLevels_length (n : nat) (i : Image) : length (buildLevels n i) = n.
Proof.
  revert i. induction n as [|n IH]; intros i; [reflexivity|].
  cbn [buildLevels length]. rewrite IH. reflexivity.
Qed.

Lemma buildLevels_firstn (l n : nat) (i : Image) :
  (l <= n)%nat -> firstn l (buildLevels n i) = buildLevels l i.
Proof.
  revert n i. induction l as [|l IH]; intros n i Hl; [reflexivity|].
  destruct n as [|n]; [lia|].
  cbn [buildLevels firstn]. rewrite IH by lia. reflexivity.
Qed.

(** [Demo.halvingPyramid] has the three properties of a pyramid the
    agreement of the overloads rests on. *)
Lemma halvingPyramid_laws :
  (forall (img : Image) (n : Z), 1 <= n -> pyrNumLevels (create img n) = n)
  /\ (forall (img : Image) (n : Z), 1 <= n -> pyrAt (create img n) 0 = Some img)
  /\ (forall (img : Image) (n l : Z),
        1 <= l <= n -> slice (create img n) 0 l = create img l).
Proof.
  split; [|split].
  - intros img n Hn. unfold pyrNumLevels. cbn [create halvingPyramid].
    rewrite buildLevels_length. lia.
  - intros img n Hn. cbn [create halvingPyramid].
    destruct (Z.to_nat n) as [|k] eqn:E; [lia|]. reflexivity.
  - intros img n l Hl. unfold slice. cbn [create halvingPyramid].
    change (Z.to_nat 0) with O. cbn [skipn].
    apply buildLevels_firstn. lia.
Qed.

(** The 640x480 target supports seven levels; a pyramid of five of them,
    shared, prepares the engine that three requested levels give on the image
    itself. *)
Lemma prepare_overloads_agree_witness :
  1 <= 5
  /\ Z.min 3 (maxLevelsForImageSize (size (gray 640 480))) <= 5
       <= maxLevelsForImageSize (size (gray 640 480))
  /\ prepareWithPyramid (fresh []) (gray 64 64) (create (gray 640 480) 5) origin 3 =
     prepare (fresh []) (gray 64 64) (gray 640 480) origin 3.
Proof.
  assert (Hk : 1 <= 5) by lia.
  assert (Hr : Z.min 3 (maxLevelsForImageSize (size (gray 640 480))) <= 5
               <= maxLevelsForImageSize (size (gray 640 480)))
    by (split; apply Z.leb_le; reflexivity).
  split; [exact Hk|]. split; [exact Hr|].
  destruct halvingPyramid_laws as (Hlen & Hfirst & Hslice).
  apply (prepare_overloads_agree (fresh []) (gray 64 64) (gray 640 480) origin 3 5
           Hlen Hfirst Hslice Hk Hr).
Defined.

(** An engine prepared on the five-level pyramid has a level to align on. *)
Lemma prepareWithPyramid_then_align_witness :
  exists this',
    prepareWithPyramid (fresh sixSteps) (gray 64 64) fiveLevels origin 3 = Some this'
    /\ 1 <= numLevels this'.
Proof.
  eexists. split; [reflexivity|].
  apply (prepareWithPyramid_then_align (fresh sixSteps) _ (gray 64 64) fiveLevels
           origin origin 3 9 0%float None).
  reflexivity.
Defined.

(** The first attempt of the run on [Demo.twoEqualSteps] starts from the
    sentinel. *)
Lemma align_level_starts_afresh_witness :
  In (firstVisit (prepared 1 twoEqualSteps) origin 2 0%float None)
     (alignTrace (prepared 1 twoEqualSteps) origin 2 0%float None)
  /\ lv_attempts (firstVisit (prepared 1 twoEqualSteps) origin 2 0%float None) =
     firstAttempt (prepared 1 twoEqualSteps) origin 0%float None
     :: tl (lv_attempts (firstVisit (prepared 1 twoEqualSteps) origin 2 0%float None))
  /\ lastError (st_this (at_before (firstAttempt (prepared 1 twoEqualSteps) origin
                                                 0%float None))) =
     0x1.fffffffffffffp+1023%float.
Proof.
  assert (Hin : In (firstVisit (prepared 1 twoEqualSteps) origin 2 0%float None)
                   (alignTrace (prepared 1 twoEqualSteps) origin 2 0%float None))
    by (left; reflexivity).
  assert (Hatt : lv_attempts (firstVisit (prepared 1 twoEqualSteps) origin 2 0%float
                                         None) =
                 firstAttempt (prepared 1 twoEqualSteps) origin 0%float None
                 :: tl (lv_attempts (firstVisit (prepared 1 twoEqualSteps) origin 2
                                                0%float None)))
    by reflexivity.
  split; [exact Hin|]. split; [exact Hatt|].
  apply (align_level_starts_afresh (prepared 1 twoEqualSteps) origin 2 0%float None
           _ _ _ Hin Hatt).
Defined.

(** Whether [setLevel(2)] was called before or not, the run on
    [Demo.sixSteps] is the same. *)
Lemma align_repeatable_witness :
  1 <= numLevels (prepared 3 sixSteps)
  /\ sameConfiguration (prepared 3 sixSteps) (setLevel (prepared 3 sixSteps) 2)
  /\ derived (prepared 3 sixSteps) = derived (setLevel (prepared 3 sixSteps) 2)
  /\ align (prepared 3 sixSteps) origin 9 0%float (Some []) =
     align (setLevel (prepared 3 sixSteps) 2) origin 9 0%float (Some []).
Proof.
  assert (Hn : 1 <= numLevels (prepared 3 sixSteps)) by (apply Z.leb_le; reflexivity).
  assert (Hc : sameConfiguration (prepared 3 sixSteps) (setLevel (prepared 3 sixSteps) 2))
    by (repeat split).
  assert (Hd : derived (prepared 3 sixSteps) = derived (setLevel (prepared 3 sixSteps) 2))
    by reflexivity.
  split; [exact Hn|]. split; [exact Hc|]. split; [exact Hd|].
  apply (align_repeatable (prepared 3 sixSteps) (setLevel (prepared 3 sixSteps) 2)
           origin 9 0%float (Some []) Hn Hc Hd).
Defined.
